(** * Transform: data transformation for ledger values

    A shallow embedding of [src/utils/datatransform.ts] (class [Transform])
    together with the part of the JavaScript platform the class calls:
    [Buffer] text decoding, [JSON.stringify], [JSON.parse], [parseInt],
    [Number.prototype.toString], lodash's type tests and mappers.

    Conventions of the embedding.
    - Text.  A JavaScript string is carried by its UTF-8 encoding, as a Rocq
      [string] (a sequence of 8-bit characters).  [Buffer.from(text)] is then
      the identity on the bytes and [buffer.toString('utf8')] is the UTF-8
      decoder, which copies well-formed sequences and replaces ill-formed ones
      by U+FFFD (EF BF BD).
    - Numbers.  A number is carried by its shortest decimal representation,
      the one [Number.prototype.toString] prints and a numeric literal is
      read into: [NInt z] is an integer-valued number, in one-to-one
      correspondence with the platform's numbers for [|z| <= 2^53 - 1] (a
      larger one is carried by the integer its shortest digits denote);
      [NDec m e], with [e < 0] and [m] no multiple of ten, is the fraction
      [m * 10^e]; [NInf] and [NaN] are the infinities and not-a-number.  The
      two zeros are not told apart, and rounding to binary floating point is
      not modelled.
    - Objects.  [VObj ps] lists the own enumerable properties in the engine's
      property order: array-index keys first, ascending, then the other keys
      in insertion order; keys are distinct.
    - Effects.  A raised exception, or the rejection of the promise of an
      [async] function, is [Throw e]; the class logger is the list of the
      records written to it; an iterator is the script of the results its
      [next()] calls will produce and the outcome of its [close()], with the
      trace of calls made so far.
    - Values are finite trees: a cyclic object is not a value of the model. *)

From Stdlib Require Import ZArith NArith List Bool Lia String Ascii.
From Stdlib Require Import Strings.Byte.
From Stdlib Require Import Decimal DecimalString DecimalN DecimalPos DecimalZ DecimalFacts.
Import ListNotations.
Local Open Scope string_scope.
Local Open Scope Z_scope.

(** ** Text helpers *)

Definition dquote : ascii := "034"%char.
Definition backslash : ascii := "092"%char.

Notation "a +++ b" := (String.append a b) (at level 60, right associativity).

Definition str1 (c : ascii) : string := String c EmptyString.

Fixpoint repeat_char (c : ascii) (n : nat) : string :=
  match n with
  | O => EmptyString
  | S k => String c (repeat_char c k)
  end.

(** Remove a literal prefix, if present. *)
Fixpoint strip_prefix (p s : string) : option string :=
  match p with
  | EmptyString => Some s
  | String a p' =>
      match s with
      | String b s' => if Ascii.eqb a b then strip_prefix p' s' else None
      | EmptyString => None
      end
  end.

Definition code (c : ascii) : N := N_of_ascii c.

Definition is_digit (c : ascii) : bool := (48 <=? code c)%N && (code c <=? 57)%N.

(** ** Numbers *)

Inductive number : Type :=
| NInt (z : Z)
| NDec (m : Z) (e : Z)
| NInf (neg : bool)
| NaN.

(** Equality of numbers as [===] sees it: [NaN] equals nothing. *)
Definition number_eqb (a b : number) : bool :=
  match a, b with
  | NInt x, NInt y => Z.eqb x y
  | NDec m e, NDec m' e' => Z.eqb m m' && Z.eqb e e'
  | NInf x, NInf y => Bool.eqb x y
  | _, _ => false
  end.

(** Decimal digits of a natural number, most significant first. *)
Definition digits (n : N) : string := NilEmpty.string_of_uint (N.to_uint n).

(** The first [n] digits of a digit sequence, and the digits after them. *)
Definition utake (n : nat) (u : uint) : uint :=
  DecimalFacts.of_list (firstn n (DecimalFacts.to_list u)).

Definition udrop (n : nat) (u : uint) : uint :=
  DecimalFacts.of_list (skipn n (DecimalFacts.to_list u)).

Definition digit_text (u : uint) : string := NilEmpty.string_of_uint u.

(** [Number::toString]'s layout of the significant digits [u] of a number
    whose decimal point sits after [n] digits (ECMA-262, Number::toString,
    radix 10). *)
Definition layout (u : uint) (n : Z) : string :=
  let k := Z.of_nat (nb_digits u) in
  if (k <=? n) && (n <=? 21) then
    digit_text u +++ repeat_char "0" (Z.to_nat (n - k))
  else if (0 <? n) && (n <=? 21) then
    digit_text (utake (Z.to_nat n) u) +++ "." +++ digit_text (udrop (Z.to_nat n) u)
  else if (-6 <? n) && (n <=? 0) then
    "0." +++ digit_text (Nat.iter (Z.to_nat (- n)) D0 u)
  else
    digit_text (utake 1 u)
      +++ (if k =? 1 then "" else "." +++ digit_text (udrop 1 u))
      +++ "e" +++ (if n - 1 <? 0 then "-" else "+") +++ digits (Z.abs_N (n - 1)).

Definition sign_text (z : Z) : string := if z <? 0 then "-" else "".

Definition Number_toString (n : number) : string :=
  match n with
  | NaN => "NaN"
  | NInf neg => if neg then "-Infinity" else "Infinity"
  | NInt z =>
      sign_text z +++ layout (DecimalFacts.nztail (N.to_uint (Z.abs_N z)))
                             (Z.of_nat (nb_digits (N.to_uint (Z.abs_N z))))
  | NDec m e =>
      sign_text m +++ layout (N.to_uint (Z.abs_N m))
                             (Z.of_nat (nb_digits (N.to_uint (Z.abs_N m))) + e)
  end.

(** Zero-padded decimal of fixed minimal width. *)
Definition pad (w : nat) (n : N) : string :=
  let d := digits n in repeat_char "0" (w - String.length d) +++ d.

(** ** Values *)

(** The two byte containers of the platform: [Buffer] is a subclass of
    [Uint8Array]; a plain [Uint8Array] is not a [Buffer]. *)
Inductive container : Type := KBuffer | KUint8Array.

#[local] Set Warnings "-register-all".

(** Runtime values handled by the class.  [VDate t] holds the time value of a
    [Date]: [Some ms], or [None] for an invalid date. *)
Inductive value : Type :=
| VUndefined
| VNull
| VBool (b : bool)
| VNum (n : number)
| VStr (s : string)
| VDate (t : option Z)
| VBytes (k : container) (bs : list byte)
| VArr (xs : list value)
| VObj (ps : list (string * value)).

Abbreviation VBuffer := (VBytes KBuffer).
Abbreviation VUint8Array := (VBytes KUint8Array).

(** Exceptions the modelled code can raise or let through. *)
Inductive exn : Type :=
| TypeError
| SyntaxError
| Rejected (reason : string).

Inductive outcome (A : Type) : Type :=
| Return (a : A)
| Throw (e : exn).
Arguments Return {A} a.
Arguments Throw {A} e.

(** A parameter that may be passed as [undefined] or [null]. *)
Inductive arg (A : Type) : Type :=
| ArgUndefined
| ArgNull
| Arg (a : A).
Arguments ArgUndefined {A}.
Arguments ArgNull {A}.
Arguments Arg {A} a.

(** ** UTF-8 decoding, [buffer.toString('utf8')] *)

(** U+FFFD in UTF-8. *)
Definition replacement : string :=
  String "239"%char (String "191"%char (String "189"%char EmptyString)).

Inductive lead : Type :=
| Single
| L2
| L3 (lo hi : N)
| L4 (lo hi : N)
| Bad.

Definition classify (c : ascii) : lead :=
  let n := code c in
  if (n <=? 127)%N then Single
  else if (194 <=? n)%N && (n <=? 223)%N then L2
  else if (224 <=? n)%N && (n <=? 239)%N then
    L3 (if (n =? 224)%N then 160 else 128)%N (if (n =? 237)%N then 159 else 191)%N
  else if (240 <=? n)%N && (n <=? 244)%N then
    L4 (if (n =? 240)%N then 144 else 128)%N (if (n =? 244)%N then 143 else 191)%N
  else Bad.

Definition within (lo hi : N) (c : ascii) : bool :=
  (lo <=? code c)%N && (code c <=? hi)%N.

Definition is_cont (c : ascii) : bool := within 128 191 c.

(** The decoder of the Encoding Standard: a well-formed sequence is copied,
    a maximal ill-formed prefix becomes U+FFFD and decoding resumes at the
    offending byte. *)
Fixpoint utf8_decode (s : string) : string :=
  match s with
  | EmptyString => EmptyString
  | String b0 r0 =>
      match classify b0 with
      | Single => String b0 (utf8_decode r0)
      | Bad => replacement +++ utf8_decode r0
      | L2 =>
          match r0 with
          | String b1 r1 =>
              if is_cont b1 then String b0 (String b1 (utf8_decode r1))
              else replacement +++ utf8_decode r0
          | EmptyString => replacement
          end
      | L3 lo hi =>
          match r0 with
          | String b1 r1 =>
              if within lo hi b1 then
                match r1 with
                | String b2 r2 =>
                    if is_cont b2
                    then String b0 (String b1 (String b2 (utf8_decode r2)))
                    else replacement +++ utf8_decode r1
                | EmptyString => replacement
                end
              else replacement +++ utf8_decode r0
          | EmptyString => replacement
          end
      | L4 lo hi =>
          match r0 with
          | String b1 r1 =>
              if within lo hi b1 then
                match r1 with
                | String b2 r2 =>
                    if is_cont b2 then
                      match r2 with
                      | String b3 r3 =>
                          if is_cont b3
                          then String b0 (String b1 (String b2 (String b3 (utf8_decode r3))))
                          else replacement +++ utf8_decode r2
                      | EmptyString => replacement
                      end
                    else replacement +++ utf8_decode r1
                | EmptyString => replacement
                end
              else replacement +++ utf8_decode r0
          | EmptyString => replacement
          end
      end
  end.

(** [Buffer.from(text)]: the UTF-8 bytes of the text. *)
Definition Buffer_from (text : string) : list byte := list_byte_of_string text.

(** [buffer.toString()] and [buffer.toString('utf8')]. *)
Definition Buffer_toString (bs : list byte) : string :=
  utf8_decode (string_of_list_byte bs).

(** [Uint8Array.prototype.toString] is [Array.prototype.join]: the elements
    in decimal, separated by commas. *)
Definition Uint8Array_toString (bs : list byte) : string :=
  String.concat "," (map (fun b => digits (Byte.to_N b)) bs).

(** [toString()] through the prototype chain of the container. *)
Definition bytes_toString (k : container) (bs : list byte) : string :=
  match k with
  | KBuffer => Buffer_toString bs
  | KUint8Array => Uint8Array_toString bs
  end.

(** ** [Date] *)

(** [TimeClip]: a time value is an integer of magnitude at most 8.64e15. *)
Definition MAX_TIME : Z := 8640000000000000.

Definition TimeClip (z : Z) : option Z :=
  if Z.abs z <=? MAX_TIME then Some z else None.

(** [new Date(n)] for a number [n]. *)
Definition Date_new (n : number) : value :=
  match n with
  | NInt z => VDate (TimeClip z)
  | NDec m e => VDate (TimeClip (Z.quot m (10 ^ (- e))))
  | NInf _ | NaN => VDate None
  end.

Definition getTime (t : option Z) : number :=
  match t with
  | Some ms => NInt ms
  | None => NaN
  end.

(** Civil date of a day number counted from 1970-01-01 (proleptic Gregorian
    calendar, as [Date.prototype.toISOString] uses it). *)
Definition civil_from_days (days : Z) : Z * Z * Z :=
  let z := days + 719468 in
  let era := z / 146097 in
  let doe := z - era * 146097 in
  let yoe := (doe - doe / 1460 + doe / 36524 - doe / 146096) / 365 in
  let doy := doe - (365 * yoe + yoe / 4 - yoe / 100) in
  let mp := (5 * doy + 2) / 153 in
  let d := doy - (153 * mp + 2) / 5 + 1 in
  let m := if mp <? 10 then mp + 3 else mp - 9 in
  let y := yoe + era * 400 + (if m <=? 2 then 1 else 0) in
  (y, m, d).

Definition toISOString (ms : Z) : string :=
  let '(y, m, d) := civil_from_days (ms / 86400000) in
  let r := ms mod 86400000 in
  let year :=
    if (0 <=? y) && (y <=? 9999) then pad 4 (Z.to_N y)
    else (if y <? 0 then "-" else "+") +++ pad 6 (Z.abs_N y) in
  year +++ "-" +++ pad 2 (Z.to_N m) +++ "-" +++ pad 2 (Z.to_N d) +++ "T"
    +++ pad 2 (Z.to_N (r / 3600000)) +++ ":"
    +++ pad 2 (Z.to_N ((r / 60000) mod 60)) +++ ":"
    +++ pad 2 (Z.to_N ((r / 1000) mod 60)) +++ "."
    +++ pad 3 (Z.to_N (r mod 1000)) +++ "Z".

(** ** [JSON.stringify] *)

Definition hex_digit (n : N) : ascii :=
  if (n <? 10)%N then ascii_of_N (48 + n) else ascii_of_N (87 + n).

(** [QuoteJSONString] on one character of well-formed text. *)
Definition escape_char (c : ascii) : string :=
  if Ascii.eqb c dquote then String backslash (str1 dquote)
  else if Ascii.eqb c backslash then String backslash (str1 backslash)
  else if Ascii.eqb c "008" then String backslash "b"
  else if Ascii.eqb c "012" then String backslash "f"
  else if Ascii.eqb c "010" then String backslash "n"
  else if Ascii.eqb c "013" then String backslash "r"
  else if Ascii.eqb c "009" then String backslash "t"
  else if (code c <? 32)%N then
    String backslash
      (String "u" (String "0" (String "0"
        (String (hex_digit (code c / 16)) (str1 (hex_digit (code c mod 16)))))))
  else str1 c.

Fixpoint quote_body (s : string) : string :=
  match s with
  | EmptyString => EmptyString
  | String c r => escape_char c +++ quote_body r
  end.

Definition JSON_quote (s : string) : string :=
  String dquote (quote_body s +++ str1 dquote).

Definition byte_number (b : byte) : number := NInt (Z.of_N (Byte.to_N b)).

(** The own enumerable properties of a byte container: its indices. *)
Fixpoint index_props (i : N) (bs : list byte) : list (string * value) :=
  match bs with
  | [] => []
  | b :: r => (digits i, VNum (byte_number b)) :: index_props (i + 1) r
  end.

Fixpoint index_members (i : N) (bs : list byte) : list (string * string) :=
  match bs with
  | [] => []
  | b :: r => (digits i, Number_toString (byte_number b)) :: index_members (i + 1) r
  end.

Definition number_json (n : number) : string :=
  match n with
  | NaN | NInf _ => "null"
  | _ => Number_toString n
  end.

(** [SerializeJSONProperty]: [None] is the result [undefined]. *)
Fixpoint JSON_stringify (v : value) : option string :=
  match v with
  | VUndefined => None
  | VNull => Some "null"
  | VBool b => Some (if b then "true" else "false")
  | VNum n => Some (number_json n)
  | VStr s => Some (JSON_quote s)
  | VDate t =>
      Some (match t with
            | Some ms => JSON_quote (toISOString ms)
            | None => "null"
            end)
  | VBytes KBuffer bs =>
      Some ("{" +++ JSON_quote "type" +++ ":" +++ JSON_quote "Buffer" +++ ","
              +++ JSON_quote "data" +++ ":["
              +++ String.concat "," (map (fun b => digits (Byte.to_N b)) bs) +++ "]}")
  | VBytes KUint8Array bs =>
      Some ("{" +++ String.concat ","
              (map (fun p => JSON_quote (fst p) +++ ":" +++ snd p)
                   (index_members 0 bs)) +++ "}")
  | VArr xs =>
      Some ("[" +++ String.concat ","
              (map (fun x => match JSON_stringify x with
                             | Some t => t
                             | None => "null"
                             end) xs) +++ "]")
  | VObj ps =>
      Some ("{" +++ String.concat ","
              (flat_map (fun p => match JSON_stringify (snd p) with
                                  | Some t => [JSON_quote (fst p) +++ ":" +++ t]
                                  | None => []
                                  end) ps) +++ "}")
  end.

(** ** [JSON.parse] *)

Definition is_ws (c : ascii) : bool :=
  Ascii.eqb c " " || Ascii.eqb c "009" || Ascii.eqb c "010" || Ascii.eqb c "013".

Fixpoint skip_ws (s : string) : string :=
  match s with
  | String c r => if is_ws c then skip_ws r else s
  | EmptyString => s
  end.

Definition hex_value (c : ascii) : option N :=
  let n := code c in
  if (48 <=? n)%N && (n <=? 57)%N then Some (n - 48)%N
  else if (97 <=? n)%N && (n <=? 102)%N then Some (n - 87)%N
  else if (65 <=? n)%N && (n <=? 70)%N then Some (n - 55)%N
  else None.

Definition hex4 (a b c d : ascii) : option N :=
  match hex_value a, hex_value b, hex_value c, hex_value d with
  | Some x, Some y, Some z, Some w => Some (((x * 16 + y) * 16 + z) * 16 + w)%N
  | _, _, _, _ => None
  end.

(** UTF-8 of a code point (a lone surrogate takes the three-byte form). *)
Definition utf8_encode (cp : N) : string :=
  if (cp <? 128)%N then str1 (ascii_of_N cp)
  else if (cp <? 2048)%N then
    String (ascii_of_N (192 + cp / 64)) (str1 (ascii_of_N (128 + cp mod 64)))
  else if (cp <? 65536)%N then
    String (ascii_of_N (224 + cp / 4096))
      (String (ascii_of_N (128 + (cp / 64) mod 64))
         (str1 (ascii_of_N (128 + cp mod 64))))
  else
    String (ascii_of_N (240 + cp / 262144))
      (String (ascii_of_N (128 + (cp / 4096) mod 64))
         (String (ascii_of_N (128 + (cp / 64) mod 64))
            (str1 (ascii_of_N (128 + cp mod 64))))).

Definition is_high_surrogate (cu : N) : bool := (55296 <=? cu)%N && (cu <=? 56319)%N.
Definition is_low_surrogate (cu : N) : bool := (56320 <=? cu)%N && (cu <=? 57343)%N.

Definition surrogate_pair (hi lo : N) : N :=
  (65536 + (hi - 55296) * 1024 + (lo - 56320))%N.

Definition simple_escape (e : ascii) : option ascii :=
  if Ascii.eqb e dquote then Some dquote
  else if Ascii.eqb e backslash then Some backslash
  else if Ascii.eqb e "/" then Some "/"%char
  else if Ascii.eqb e "b" then Some "008"%char
  else if Ascii.eqb e "f" then Some "012"%char
  else if Ascii.eqb e "n" then Some "010"%char
  else if Ascii.eqb e "r" then Some "013"%char
  else if Ascii.eqb e "t" then Some "009"%char
  else None.

Definition prepend (p : string) (r : option (string * string)) : option (string * string) :=
  match r with
  | Some (t, rest) => Some (p +++ t, rest)
  | None => None
  end.

(** The low half of a surrogate pair written as an escape, if [s] starts
    with one. *)
Definition low_escape (s : string) : option N :=
  match s with
  | String b (String u (String g1 (String g2 (String g3 (String g4 _))))) =>
      if Ascii.eqb b backslash && Ascii.eqb u "u" then
        match hex4 g1 g2 g3 g4 with
        | Some lo => if is_low_surrogate lo then Some lo else None
        | None => None
        end
      else None
  | _ => None
  end.

(** The characters of a string literal after its opening quote, up to and
    including the closing quote. *)
Fixpoint lex_string (s : string) : option (string * string) :=
  match s with
  | EmptyString => None
  | String c r =>
      if Ascii.eqb c dquote then Some (EmptyString, r)
      else if Ascii.eqb c backslash then
        match r with
        | EmptyString => None
        | String e r1 =>
            match simple_escape e with
            | Some ch => prepend (str1 ch) (lex_string r1)
            | None =>
                if Ascii.eqb e "u" then
                  match r1 with
                  | String h1 (String h2 (String h3 (String h4 r2))) =>
                      match hex4 h1 h2 h3 h4 with
                      | Some cu =>
                          match (if is_high_surrogate cu then low_escape r2 else None), r2 with
                          | Some lo, String _ (String _ (String _ (String _ (String _ (String _ r3))))) =>
                              prepend (utf8_encode (surrogate_pair cu lo)) (lex_string r3)
                          | _, _ => prepend (utf8_encode cu) (lex_string r2)
                          end
                      | None => None
                      end
                  | _ => None
                  end
                else None
            end
        end
      else if (code c <? 32)%N then None
      else prepend (str1 c) (lex_string r)
  end.

Definition digit_of (c : ascii) : option (uint -> uint) :=
  match c with
  | "0" => Some D0 | "1" => Some D1 | "2" => Some D2 | "3" => Some D3
  | "4" => Some D4 | "5" => Some D5 | "6" => Some D6 | "7" => Some D7
  | "8" => Some D8 | "9" => Some D9
  | _ => None
  end%char.

Fixpoint lex_digits (s : string) : uint * string :=
  match s with
  | String c r =>
      match digit_of c with
      | Some d => let (u, rest) := lex_digits r in (d u, rest)
      | None => (Nil, s)
      end
  | EmptyString => (Nil, s)
  end.

(** [m * 10^e] for [e = - fuel], as an integer when it is one. *)
Fixpoint reduce (fuel : nat) (m e : Z) : number :=
  match fuel with
  | O => NInt m
  | S k => if m mod 10 =? 0 then reduce k (m / 10) (e + 1) else NDec m e
  end.

Definition scaled (m e : Z) : number :=
  if 0 <=? e then NInt (m * 10 ^ e) else reduce (Z.to_nat (- e)) m e.

Definition mk_number (neg : bool) (int : uint) (frac : option uint)
    (exp : option Z) : number :=
  let sg := fun z : Z => if neg then - z else z in
  match frac, exp with
  | None, None => NInt (sg (Z.of_uint int))
  | _, _ =>
      let f := match frac with Some f => f | None => Nil end in
      let x := match exp with Some x => x | None => 0 end in
      scaled (sg (Z.of_uint (Decimal.app int f))) (x - Z.of_nat (nb_digits f))
  end.

Definition lex_int (s : string) : option (uint * string) :=
  match s with
  | String c r =>
      if Ascii.eqb c "0" then Some (D0 Nil, r)
      else if is_digit c then Some (lex_digits s)
      else None
  | EmptyString => None
  end.

Definition lex_frac (s : string) : option (option uint * string) :=
  match s with
  | String c r =>
      if Ascii.eqb c "." then
        match lex_digits r with
        | (Nil, _) => None
        | (f, rest) => Some (Some f, rest)
        end
      else Some (None, s)
  | EmptyString => Some (None, s)
  end.

Definition lex_exp (s : string) : option (option Z * string) :=
  match s with
  | String c r =>
      if Ascii.eqb c "e" || Ascii.eqb c "E" then
        let '(neg, r') :=
          match r with
          | String g r' =>
              if Ascii.eqb g "-" then (true, r')
              else if Ascii.eqb g "+" then (false, r')
              else (false, r)
          | EmptyString => (false, r)
          end in
        match lex_digits r' with
        | (Nil, _) => None
        | (x, rest) => Some (Some (if neg then - Z.of_uint x else Z.of_uint x), rest)
        end
      else Some (None, s)
  | EmptyString => Some (None, s)
  end.

(** A number literal after its sign. *)
Definition lex_unsigned (neg : bool) (s0 : string) : option (number * string) :=
  match lex_int s0 with
  | Some (int, s1) =>
      match lex_frac s1 with
      | Some (frac, s2) =>
          match lex_exp s2 with
          | Some (exp, s3) => Some (mk_number neg int frac exp, s3)
          | None => None
          end
      | None => None
      end
  | None => None
  end.

Definition lex_number (s : string) : option (number * string) :=
  match s with
  | String c r => if Ascii.eqb c "-" then lex_unsigned true r else lex_unsigned false s
  | EmptyString => None
  end.

(** Array-index keys, the canonical decimal strings below [2^32 - 1], come
    first in the property order of an object. *)
Definition array_index (k : string) : option N :=
  match NilEmpty.uint_of_string k with
  | Some u =>
      let n := N.of_uint u in
      if String.eqb (digits n) k && (n <? 4294967295)%N then Some n else None
  | None => None
  end.

(** [precedes k k']: a new key [k] is placed before the existing key [k']. *)
Definition precedes (k k' : string) : bool :=
  match array_index k, array_index k' with
  | Some i, Some j => (i <? j)%N
  | Some _, None => true
  | None, _ => false
  end.

(** [CreateDataProperty]: overwrite in place, or add in property order. *)
Fixpoint set_prop (k : string) (v : value) (ps : list (string * value))
  : list (string * value) :=
  match ps with
  | [] => [(k, v)]
  | (k', v') :: r =>
      if String.eqb k k' then (k, v) :: r
      else if precedes k k' then (k, v) :: ps
      else (k', v') :: set_prop k v r
  end.

Definition build_object (members : list (string * value)) : value :=
  VObj (fold_left (fun acc p => set_prop (fst p) (snd p) acc) members []).

Definition literal (text : string) (v : value) (s : string) : option (value * string) :=
  match strip_prefix text s with
  | Some rest => Some (v, rest)
  | None => None
  end.

(** Skip white space and take the character [c], if it comes next. *)
Definition expect (c : ascii) (s : string) : option string :=
  match skip_ws s with
  | String c' r => if Ascii.eqb c' c then Some r else None
  | EmptyString => None
  end.

(** Recursive descent over the JSON grammar; [fuel] bounds the nesting and
    the number of siblings visited, and [JSON_parse] supplies enough of it. *)
Fixpoint parse_value (fuel : nat) (s : string) {struct fuel} : option (value * string) :=
  match fuel with
  | O => None
  | S n =>
      match skip_ws s with
      | EmptyString => None
      | String c r =>
          if Ascii.eqb c "[" then
            match expect "]" r with
            | Some r' => Some (VArr [], r')
            | None =>
                match parse_elements n r with
                | Some (xs, rest) => Some (VArr xs, rest)
                | None => None
                end
            end
          else if Ascii.eqb c "{" then
            match expect "}" r with
            | Some r' => Some (VObj [], r')
            | None =>
                match parse_members n r with
                | Some (ms, rest) => Some (build_object ms, rest)
                | None => None
                end
            end
          else if Ascii.eqb c dquote then
            match lex_string r with
            | Some (t, rest) => Some (VStr t, rest)
            | None => None
            end
          else if Ascii.eqb c "t" then literal "true" (VBool true) (String c r)
          else if Ascii.eqb c "f" then literal "false" (VBool false) (String c r)
          else if Ascii.eqb c "n" then literal "null" VNull (String c r)
          else
            match lex_number (String c r) with
            | Some (x, rest) => Some (VNum x, rest)
            | None => None
            end
      end
  end
with parse_elements (fuel : nat) (s : string) {struct fuel} : option (list value * string) :=
  match fuel with
  | O => None
  | S n =>
      match parse_value n s with
      | Some (v, r) =>
          match expect "," r with
          | Some r' =>
              match parse_elements n r' with
              | Some (vs, rest) => Some (v :: vs, rest)
              | None => None
              end
          | None =>
              match expect "]" r with
              | Some r' => Some ([v], r')
              | None => None
              end
          end
      | None => None
      end
  end
with parse_members (fuel : nat) (s : string) {struct fuel}
  : option (list (string * value) * string) :=
  match fuel with
  | O => None
  | S n =>
      match expect dquote s with
      | Some r0 =>
          match lex_string r0 with
          | Some (k, r1) =>
              match expect ":" r1 with
              | Some r2 =>
                  match parse_value n r2 with
                  | Some (v, r3) =>
                      match expect "," r3 with
                      | Some r' =>
                          match parse_members n r' with
                          | Some (ms, rest) => Some ((k, v) :: ms, rest)
                          | None => None
                          end
                      | None =>
                          match expect "}" r3 with
                          | Some r' => Some ([(k, v)], r')
                          | None => None
                          end
                      end
                  | None => None
                  end
              | None => None
              end
          | None => None
          end
      | None => None
      end
  end.

(** [JSON.parse(text)]: [None] stands for the [SyntaxError] it throws. *)
Definition JSON_parse (text : string) : option value :=
  match parse_value (2 * String.length text + 2) text with
  | Some (v, rest) =>
      match skip_ws rest with
      | EmptyString => Some v
      | _ => None
      end
  | None => None
  end.

(** ** [parseInt] and [parseFloat] *)

(** White space skipped by [StringToNumber]-style parsing, in UTF-8. *)
Definition is_space1 (c : ascii) : bool :=
  let n := code c in ((9 <=? n)%N && (n <=? 13)%N) || (n =? 32)%N.

Definition is_space2 (a b : ascii) : bool :=
  (code a =? 194)%N && (code b =? 160)%N.

Definition is_space3 (a b c : ascii) : bool :=
  let x := code a in let y := code b in let z := code c in
  ((x =? 225)%N && (y =? 154)%N && (z =? 128)%N)
  || ((x =? 226)%N && (y =? 128)%N
      && (((128 <=? z)%N && (z <=? 138)%N) || (z =? 168)%N || (z =? 169)%N || (z =? 175)%N))
  || ((x =? 226)%N && (y =? 129)%N && (z =? 159)%N)
  || ((x =? 227)%N && (y =? 128)%N && (z =? 128)%N)
  || ((x =? 239)%N && (y =? 187)%N && (z =? 191)%N).

Fixpoint trim_start (s : string) : string :=
  match s with
  | EmptyString => s
  | String a r =>
      if is_space1 a then trim_start r
      else
        match r with
        | EmptyString => s
        | String b r1 =>
            if is_space2 a b then trim_start r1
            else
              match r1 with
              | EmptyString => s
              | String c r2 => if is_space3 a b c then trim_start r2 else s
              end
        end
  end.

Definition lex_sign (s : string) : bool * string :=
  match s with
  | String c r =>
      if Ascii.eqb c "-" then (true, r)
      else if Ascii.eqb c "+" then (false, r)
      else (false, s)
  | EmptyString => (false, s)
  end.

(** [parseInt(text, 10)]. *)
Definition parseInt (text : string) : number :=
  let '(neg, s) := lex_sign (trim_start text) in
  match lex_digits s with
  | (Nil, _) => NaN
  | (u, _) => NInt (if neg then - Z.of_uint u else Z.of_uint u)
  end.

(** [parseFloat(text)]: the longest prefix that is a decimal literal. *)
Definition parseFloat (text : string) : number :=
  let '(neg, s) := lex_sign (trim_start text) in
  match strip_prefix "Infinity" s with
  | Some _ => NInf neg
  | None =>
      let '(int, s1) := lex_digits s in
      let '(frac, s2) :=
        match s1 with
        | String "." r => lex_digits r
        | _ => (Nil, s1)
        end in
      match int, frac with
      | Nil, Nil => NaN
      | _, _ =>
          let x := match lex_exp s2 with
                   | Some (Some x, _) => x
                   | _ => 0
                   end in
          scaled (if neg then - Z.of_uint (Decimal.app int frac)
                  else Z.of_uint (Decimal.app int frac))
                 (x - Z.of_nat (nb_digits frac))
      end
  end.

(** [n === v] for a number [n]: values of another type are never equal. *)
Definition strict_equals_number (n : number) (v : value) : bool :=
  match v with
  | VNum m => number_eqb n m
  | _ => false
  end.

(** [/\d+/g.test(text)] on a fresh regular expression. *)
Fixpoint has_digit (text : string) : bool :=
  match text with
  | EmptyString => false
  | String c r => is_digit c || has_digit r
  end.

(** ** lodash *)

Definition isDate (v : value) : bool :=
  match v with VDate _ => true | _ => false end.

Definition isString (v : value) : bool :=
  match v with VStr _ => true | _ => false end.

Definition isArray (v : value) : bool :=
  match v with VArr _ => true | _ => false end.

(** [_.isObject]: the language type Object, which dates, byte containers,
    arrays and plain objects all have. *)
Definition isObject (v : value) : bool :=
  match v with
  | VDate _ | VBytes _ _ | VArr _ | VObj _ => true
  | _ => false
  end.

Definition instanceof_Buffer (v : value) : bool :=
  match v with VBytes KBuffer _ => true | _ => false end.

(** The elements of an array under their indices. *)
Fixpoint indexed (i : N) (xs : list value) : list (string * value) :=
  match xs with
  | [] => []
  | x :: r => (digits i, x) :: indexed (i + 1) r
  end.

(** [_.map(collection, f)]: the array of the results of [f] on the elements
    of an array or on the property values of an object; empty for a value
    without own enumerable properties.  (A string, which the class never
    passes, would be mapped character by character.) *)
Definition lodash_map (v : value) (f : value -> value) : value :=
  match v with
  | VArr xs => VArr (map f xs)
  | VObj ps => VArr (map (fun p => f (snd p)) ps)
  | VBytes _ bs => VArr (map (fun b => f (VNum (byte_number b))) bs)
  | _ => VArr []
  end.

(** [_.mapValues(object, f)]: a new plain object over the own enumerable
    string keys of [object], which for an array or a byte container are the
    indices and for a date are none.  (A string, which the class never
    passes, would be mapped character by character.) *)
Definition lodash_mapValues (v : value) (f : value -> value) : value :=
  match v with
  | VObj ps => VObj (map (fun p => (fst p, f (snd p))) ps)
  | VBytes _ bs => VObj (map (fun p => (fst p, f (snd p))) (index_props 0 bs))
  | VArr xs => VObj (indexed 0 (map f xs))
  | _ => VObj []
  end.

(** * The class [Transform] *)

(** ** [normalizePayload] *)

(** [value.getTime()]. *)
Definition Date_getTime (v : value) : value :=
  match v with
  | VDate t => VNum (getTime t)
  | _ => VUndefined
  end.

(** The source tests [_.isDate], [_.isString], [_.isArray], [_.isObject] in
    this order and recurses through [_.map] and [_.mapValues].  The function
    is defined here by structural recursion; [normalizePayload_source] below
    shows that it satisfies the equation the source is written as.  On a byte
    container the iteratee meets only the numbers at the indices, which it
    returns unchanged. *)
Fixpoint normalizePayload (v : value) : value :=
  match v with
  | VDate t => VNum (getTime t)
  | VStr s => VStr s
  | VArr xs => VArr (map normalizePayload xs)
  | VBytes _ bs => VObj (index_props 0 bs)
  | VObj ps => VObj (map (fun p => (fst p, normalizePayload (snd p))) ps)
  | VUndefined | VNull | VBool _ | VNum _ => v
  end.

(** ** [serialize] *)

(** [Buffer.from(x)] where [x] is a string or [undefined]. *)
Definition Buffer_from_any (x : option string) : outcome value :=
  match x with
  | Some text => Return (VBuffer (Buffer_from text))
  | None => Throw TypeError
  end.

(** [x.toString()] for the results [normalizePayload] gives on a date or a
    string: a number or a string. *)
Definition toString (v : value) : option string :=
  match v with
  | VNum n => Some (Number_toString n)
  | VStr s => Some s
  | _ => None
  end.

Definition serialize (v : value) : outcome value :=
  if instanceof_Buffer v then Return v
  else if isDate v || isString v then Buffer_from_any (toString (normalizePayload v))
  else Buffer_from_any (JSON_stringify (normalizePayload v)).

(** ** The logger *)

Record log_record : Type := mk_log {
  level : string;
  message : string;
  meta : string
}.

Definition logger := list log_record.

Definition logger_error (msg context : string) (log : logger) : logger :=
  (log ++ [mk_log "error" msg context])%list.

(** ** [bufferToObject] and [uInt8ArrayToObject] *)

Definition bufferToObject (log : logger) (buffer : arg (list byte))
  : outcome value * logger :=
  match buffer with
  | ArgUndefined | ArgNull => (Return VNull, log)
  | Arg bs =>
      if strict_equals_number (parseFloat (Buffer_toString bs)) (VBuffer bs)
      then (Return (VBuffer bs), log)
      else
        let bufferString := Buffer_toString bs in
        if (String.length bufferString <=? 0)%nat then (Return VNull, log)
        else
          match JSON_parse bufferString with
          | Some parsed => (Return parsed, log)
          | None =>
              (Return (VStr bufferString),
               logger_error "Error parsing buffer to JSON" bufferString log)
          end
  end.

(** The payload is typed [Uint8Array]; a [Buffer] is one too. *)
Definition uInt8ArrayToObject (log : logger) (payload : arg (container * list byte))
  : outcome value * logger :=
  match payload with
  | ArgNull => (Return VNull, log)
  | ArgUndefined => (Throw TypeError, log)
  | Arg (k, bs) =>
      if strict_equals_number (parseFloat (bytes_toString k bs)) (VBytes k bs)
      then (Return (VBytes k bs), log)
      else
        let payloadString := bytes_toString k bs in
        if (String.length payloadString <=? 0)%nat then (Return VNull, log)
        else
          match JSON_parse payloadString with
          | Some parsed => (Return parsed, log)
          | None =>
              (Return (VStr payloadString),
               logger_error "Error parsing Uint8Array to JSON" payloadString log)
          end
  end.

(** ** [bufferToDate] and [bufferToString] *)

Definition bufferToDate (buffer : arg (list byte)) : value :=
  match buffer with
  | ArgUndefined | ArgNull => VUndefined
  | Arg bs =>
      let bufferString := Buffer_toString bs in
      if (String.length bufferString <=? 0)%nat then VUndefined
      else if has_digit bufferString then Date_new (parseInt bufferString)
      else VUndefined
  end.

Definition bufferToString (buffer : arg (list byte)) : value :=
  match buffer with
  | ArgUndefined | ArgNull => VNull
  | Arg bs => VStr (Buffer_toString bs)
  end.

(** ** Iterators *)

(** [Iterators.KV]. *)
Record KV_entry : Type := mk_entry {
  entry_key : string;
  entry_value : list byte
}.

(** [Iterators.KeyModification]; the timestamp may be missing. *)
Record KeyModification : Type := mk_modification {
  km_value : list byte;
  km_isDelete : bool;
  km_txId : string;
  km_timestamp : option Z (* seconds *)
}.

(** [NextResult]: [value] is absent on a bare end-of-results signal. *)
Record NextResult (A : Type) : Type := mk_next {
  next_value : option A;
  done : bool
}.
Arguments mk_next {A} _ _.
Arguments next_value {A} _.
Arguments done {A} _.

(** What one [await iterator.next()] produces. *)
Inductive next_outcome (A : Type) : Type :=
| Resolves (res : NextResult A)
| Rejects (e : exn).
Arguments Resolves {A} res.
Arguments Rejects {A} e.

Inductive call : Type := CallNext | CallClose.

(** An iterator: what its coming [next()] calls produce (once the script is
    used up it reports the end of the results), what its [close()] produces
    ([None] when it resolves, [Some e] when it rejects with [e]), and the
    calls received. *)
Record iterator (A : Type) : Type := Iterator {
  script : list (next_outcome A);
  closing : option exn;
  calls : list call
}.
Arguments Iterator {A} _ _ _.
Arguments script {A} _.
Arguments closing {A} _.
Arguments calls {A} _.

(** An iterator whose [close()] resolves. *)
Abbreviation mk_iterator s c := (Iterator s None c).

(** [KV] and [KeyModificationItem] of the package index. *)
Record KV : Type := mk_KV {
  key : string;
  value_of : value
}.

Record KeyModificationItem : Type := mk_item {
  is_delete : bool;
  item_value : value;
  timestamp : Z;
  tx_id : string
}.

(** [try { JSON.parse(text) } catch (err) { text }]. *)
Definition parse_or_text (text : string) : value :=
  match JSON_parse text with
  | Some parsed => parsed
  | None => VStr text
  end.

(** [await iterator.close(); return allResults;]: the list, unless
    [close()] rejects, and then its reason. *)
Definition closed {R : Type} (closing : option exn) (allResults : R) : outcome R :=
  match closing with
  | None => Return allResults
  | Some e => Throw e
  end.

(** The loop [while (res == null || !res.done) { res = await
    iterator.next(); ... }] followed by [await iterator.close()] and the
    [return], shared by the three drain functions; [body] is the conditional
    block of the loop, acting on [allResults], and [closing] is what
    [close()] produces. *)
Fixpoint drain {A R : Type} (body : NextResult A -> list R -> outcome (list R))
    (closing : option exn) (todo : list (next_outcome A)) (made : list call)
    (allResults : list R)
  : outcome (list R) * iterator A :=
  match todo with
  | [] =>
      match body (mk_next None true) allResults with
      | Return results =>
          (closed closing results,
           Iterator [] closing (made ++ [CallNext; CallClose])%list)
      | Throw e => (Throw e, Iterator [] closing (made ++ [CallNext])%list)
      end
  | Rejects e :: rest => (Throw e, Iterator rest closing (made ++ [CallNext])%list)
  | Resolves res :: rest =>
      match body res allResults with
      | Throw e => (Throw e, Iterator rest closing (made ++ [CallNext])%list)
      | Return results =>
          if done res
          then (closed closing results,
                Iterator rest closing (made ++ [CallNext; CallClose])%list)
          else drain body closing rest (made ++ [CallNext])%list results
      end
  end.

Definition list_body (res : NextResult KV_entry) (allResults : list value)
  : outcome (list value) :=
  match next_value res with
  | Some item =>
      if (0 <? String.length (Buffer_toString (entry_value item)))%nat
      then Return (allResults ++ [parse_or_text (Buffer_toString (entry_value item))])%list
      else Return allResults
  | None => Return allResults
  end.

Definition iteratorToList (it : iterator KV_entry) : outcome (list value) * iterator KV_entry :=
  drain list_body (closing it) (script it) (calls it) [].

Definition kv_body (res : NextResult KV_entry) (allResults : list KV)
  : outcome (list KV) :=
  match next_value res with
  | Some item =>
      if (0 <? String.length (Buffer_toString (entry_value item)))%nat
      then Return (allResults ++
                     [mk_KV (entry_key item)
                            (parse_or_text (Buffer_toString (entry_value item)))])%list
      else Return allResults
  | None => Return allResults
  end.

Definition iteratorToKVList (it : iterator KV_entry) : outcome (list KV) * iterator KV_entry :=
  drain kv_body (closing it) (script it) (calls it) [].

Definition history_body (res : NextResult KeyModification)
    (allResults : list KeyModificationItem) : outcome (list KeyModificationItem) :=
  match next_value res with
  | Some item =>
      if (0 <? String.length (Buffer_toString (km_value item)))%nat then
        let parsed := parse_or_text (Buffer_toString (km_value item)) in
        match km_timestamp item with
        | Some seconds =>
            Return (allResults ++
                      [mk_item (km_isDelete item) parsed seconds (km_txId item)])%list
        | None => Throw TypeError
        end
      else Return allResults
  | None => Return allResults
  end.

Definition iteratorToHistoryList (it : iterator KeyModification)
  : outcome (list KeyModificationItem) * iterator KeyModification :=
  drain history_body (closing it) (script it) (calls it) [].

(** * Reference definitions *)

(** The normalizer as the specification words it: a date becomes its
    epoch-millisecond number, a string is unchanged, a sequence and a keyed
    mapping are rebuilt from their normalized members, and anything else,
    which there includes a byte container, is returned unchanged. *)
Fixpoint normalize_spec (v : value) : value :=
  match v with
  | VDate t => VNum (getTime t)
  | VStr s => VStr s
  | VArr xs => VArr (map normalize_spec xs)
  | VObj ps => VObj (map (fun p => (fst p, normalize_spec (snd p))) ps)
  | VUndefined | VNull | VBool _ | VNum _ | VBytes _ _ => v
  end.

(** The same with one more case: a byte container becomes the mapping from
    each of its indices, in decimal, to the number stored there. *)
Fixpoint normalize_ref (v : value) : value :=
  match v with
  | VDate t => VNum (getTime t)
  | VStr s => VStr s
  | VArr xs => VArr (map normalize_ref xs)
  | VObj ps => VObj (map (fun p => (fst p, normalize_ref (snd p))) ps)
  | VBytes _ bs =>
      VObj (combine (map (fun i => digits (N.of_nat i)) (seq 0 (List.length bs)))
                    (map (fun b => VNum (byte_number b)) bs))
  | VUndefined | VNull | VBool _ | VNum _ => v
  end.

(** The first run of digits of a text, as a number (0 when there is none). *)
Fixpoint first_digit_run (text : string) : Z :=
  match text with
  | EmptyString => 0
  | String c r =>
      if is_digit c then Z.of_uint (fst (lex_digits text)) else first_digit_run r
  end.

(** [deserialize(serialize(x))], with [bufferToObject] as the deserializer;
    what [serialize] returns is always a [Buffer]. *)
Definition deserialize_serialized (log : logger) (x : value) : outcome value * logger :=
  match serialize x with
  | Return (VBytes KBuffer bs) => bufferToObject log (Arg bs)
  | Return other => (Return other, log)
  | Throw e => (Throw e, log)
  end.

(** Well-formed UTF-8, decided along the decoder. *)
Fixpoint utf8_valid (s : string) : bool :=
  match s with
  | EmptyString => true
  | String b0 r0 =>
      match classify b0 with
      | Single => utf8_valid r0
      | Bad => false
      | L2 =>
          match r0 with
          | String b1 r1 => is_cont b1 && utf8_valid r1
          | EmptyString => false
          end
      | L3 lo hi =>
          match r0 with
          | String b1 (String b2 r2) => within lo hi b1 && is_cont b2 && utf8_valid r2
          | _ => false
          end
      | L4 lo hi =>
          match r0 with
          | String b1 (String b2 (String b3 r3)) =>
              within lo hi b1 && is_cont b2 && is_cont b3 && utf8_valid r3
          | _ => false
          end
      end
  end.

(** Keys are distinct and in property order. *)
Fixpoint props_ordered (ks : list string) : bool :=
  match ks with
  | [] => true
  | k' :: r =>
      forallb (fun k => negb (String.eqb k k') && negb (precedes k k')) r
      && props_ordered r
  end.

(** JSON-safe values without dates: [null], booleans, finite numbers (an
    integer, or a decimal fraction in lowest terms of ten), well-formed
    strings, arrays and objects of such. *)
Fixpoint json_safe (v : value) : bool :=
  match v with
  | VNull | VBool _ => true
  | VNum (NInt _) => true
  | VNum (NDec m e) => (e <? 0) && negb (m mod 10 =? 0)
  | VStr s => utf8_valid s
  | VArr xs => forallb json_safe xs
  | VObj ps =>
      forallb (fun p => utf8_valid (fst p) && json_safe (snd p)) ps
      && props_ordered (map fst ps)
  | VUndefined | VNum _ | VDate _ | VBytes _ _ => false
  end.

Definition count_close (cs : list call) : nat :=
  List.length (filter (fun c => match c with CallClose => true | CallNext => false end) cs).

(** A [next()] result that keeps the loop going. *)
Definition continues {A : Type} (o : next_outcome A) : Prop :=
  exists res, o = Resolves res /\ done res = false.

Definition head_is_digit (s : string) : bool :=
  match s with
  | String c _ => is_digit c
  | EmptyString => false
  end.

(** Values without a date and without a byte container at any depth. *)
Fixpoint normalized (v : value) : bool :=
  match v with
  | VDate _ | VBytes _ _ => false
  | VArr xs => forallb normalized xs
  | VObj ps => forallb (fun p => normalized (snd p)) ps
  | VUndefined | VNull | VBool _ | VNum _ | VStr _ => true
  end.

(** The values [JSON.parse] produces: no [undefined], date or byte
    container at any depth. *)
Fixpoint json_value (v : value) : bool :=
  match v with
  | VUndefined | VDate _ | VBytes _ _ => false
  | VArr xs => forallb json_value xs
  | VObj ps => forallb (fun p => json_value (snd p)) ps
  | VNull | VBool _ | VNum _ | VStr _ => true
  end.


(** The [seconds] of the timestamp of a history item that has one. *)
Definition seconds (item : KeyModification) : Z :=
  match km_timestamp item with
  | Some s => s
  | None => 0
  end.

(** How a drain function ends with the outcome [o] on an iterator whose
    [close()] produces [closing], after the calls [made] before it.  It has
    called [next()] one or more times and nothing else while the loop ran.
    Then either the loop failed: the function fails and [close()] was not
    called; or the loop ended: [close()] was called once, last, and the
    function returns a list when [close()] resolved and fails with its
    reason when it rejected. *)
Definition drained {R : Type} (o : outcome R) (closing : option exn)
    (made after : list call) : Prop :=
  exists n : nat,
    (1 <= n)%nat
    /\ ((after = (made ++ repeat CallNext n)%list /\ exists e, o = Throw e)
        \/ (after = (made ++ repeat CallNext n ++ [CallClose])%list
            /\ exists results, o = closed closing results)).

(** ** Auxiliary notions for the round trip *)

(** What may follow a value inside a JSON text: the end, a comma or a
    closing bracket. *)
Definition delimited (rest : string) : bool :=
  match rest with
  | EmptyString => true
  | String c _ => Ascii.eqb c "," || Ascii.eqb c "]" || Ascii.eqb c "}"
  end.

(** The text [JSON.stringify] writes for an element of an array. *)
Definition item_text (v : value) : string :=
  match JSON_stringify v with
  | Some t => t
  | None => "null"
  end.

(** The text [JSON.stringify] writes for a property of an object. *)
Definition member_text (p : string * value) : string :=
  JSON_quote (fst p) +++ ":" +++ item_text (snd p).

(** The characters a JSON value can start with. *)
Definition value_head (c : ascii) : bool :=
  is_digit c || Ascii.eqb c "-" || Ascii.eqb c dquote || Ascii.eqb c "["
  || Ascii.eqb c "{" || Ascii.eqb c "t" || Ascii.eqb c "f" || Ascii.eqb c "n".

Definition starts_value (t : string) : bool :=
  match t with
  | String c _ => value_head c
  | EmptyString => false
  end.

(** [v] is read back from its text, whatever delimiter follows, with fuel
    proportional to the length of the text. *)
Definition parses_back (v : value) : Prop :=
  starts_value (item_text v) = true
  /\ forall n rest,
       (2 * String.length (item_text v) <= n)%nat ->
       delimited rest = true ->
       parse_value n (item_text v +++ rest) = Some (v, rest).

(** A digit sequence with a leading digit other than zero. *)
Definition leads (u : uint) : Prop :=
  match u with
  | Nil | D0 _ => False
  | _ => True
  end.

(** Bytes of multi-byte sequences. *)
Definition high (c : ascii) : bool := (128 <=? code c)%N.

(** A successful parse consumes text, and succeeds alike with any fuel that
    is at least proportional to the text consumed. *)
Definition value_fuel_free (n : nat) : Prop :=
  forall s v r,
    parse_value n s = Some (v, r) ->
    (String.length r < String.length s)%nat
    /\ forall m, (2 * (String.length s - String.length r) - 1 <= m)%nat ->
                 parse_value m s = Some (v, r).

Definition elements_fuel_free (n : nat) : Prop :=
  forall s vs r,
    parse_elements n s = Some (vs, r) ->
    (String.length r + 2 <= String.length s)%nat
    /\ forall m, (2 * (String.length s - String.length r) - 2 <= m)%nat ->
                 parse_elements m s = Some (vs, r).

Definition members_fuel_free (n : nat) : Prop :=
  forall s ms r,
    parse_members n s = Some (ms, r) ->
    (String.length r + 2 <= String.length s)%nat
    /\ forall m, (2 * (String.length s - String.length r) - 2 <= m)%nat ->
                 parse_members m s = Some (ms, r).

(** * Properties of the platform model *)

(** ** Text lemmas *)

Lemma append_nil_r (s : string) : s +++ "" = s.
Proof. induction s; simpl; congruence. Qed.

Lemma append_assoc (a b c : string) : (a +++ b) +++ c = a +++ (b +++ c).
Proof. induction a; simpl; congruence. Qed.

Lemma length_append (a b : string) :
  String.length (a +++ b) = (String.length a + String.length b)%nat.
Proof. induction a; simpl; congruence. Qed.

Lemma length_zero_iff (s : string) : (String.length s <=? 0)%nat = true <-> s = "".
Proof.
  destruct s; simpl; split; intro H; try reflexivity; discriminate H.
Qed.

Lemma length_pos_iff (s : string) : (0 <? String.length s)%nat = true <-> s <> "".
Proof.
  destruct s; simpl; split; intro H; try discriminate; try reflexivity.
  exfalso. apply H. reflexivity.
Qed.

Lemma nonempty_length (s : string) : s <> "" -> (String.length s <=? 0)%nat = false.
Proof. destruct s; simpl; [intro H; exfalso; apply H|]; reflexivity. Qed.

(** ** Induction on values *)

Section ValueInduction.
Variable P : value -> Prop.
Hypothesis Hundefined : P VUndefined.
Hypothesis Hnull : P VNull.
Hypothesis Hbool : forall b, P (VBool b).
Hypothesis Hnum : forall n, P (VNum n).
Hypothesis Hstr : forall s, P (VStr s).
Hypothesis Hdate : forall t, P (VDate t).
Hypothesis Hbytes : forall k bs, P (VBytes k bs).
Hypothesis Harr : forall xs, Forall P xs -> P (VArr xs).
Hypothesis Hobj : forall ps, Forall (fun p => P (snd p)) ps -> P (VObj ps).

Fixpoint value_induction (v : value) : P v :=
  match v with
  | VUndefined => Hundefined
  | VNull => Hnull
  | VBool b => Hbool b
  | VNum n => Hnum n
  | VStr s => Hstr s
  | VDate t => Hdate t
  | VBytes k bs => Hbytes k bs
  | VArr xs =>
      Harr xs
        ((fix all (l : list value) : Forall P l :=
            match l with
            | [] => Forall_nil P
            | x :: r => Forall_cons x (value_induction x) (all r)
            end) xs)
  | VObj ps =>
      Hobj ps
        ((fix all (l : list (string * value)) : Forall (fun p => P (snd p)) l :=
            match l with
            | [] => Forall_nil _
            | p :: r => Forall_cons p (value_induction (snd p)) (all r)
            end) ps)
  end.
End ValueInduction.

(** ** Decoded text *)

Lemma string_length_induction (P : string -> Prop) :
  (forall s, (forall t, (String.length t < String.length s)%nat -> P t) -> P s) ->
  forall s, P s.
Proof.
  intros H s.
  assert (G : forall n t, (String.length t < n)%nat -> P t).
  { induction n as [|n IH]; intros t Ht; [lia|].
    apply H. intros t' Ht'. apply IH. lia. }
  apply (G (S (String.length s))). lia.
Qed.

Ltac break_match :=
  match goal with
  | |- context [match ?x with _ => _ end] => destruct x eqn:?
  end.

Lemma utf8_decode_nonempty (s : string) : s <> "" -> utf8_decode s <> "".
Proof.
  destruct s as [|a r]; intro H; [exfalso; apply H; reflexivity|].
  simpl. repeat break_match; simpl; discriminate.
Qed.

Lemma Buffer_toString_empty_iff (bs : list byte) : Buffer_toString bs = "" <-> bs = [].
Proof.
  split; intro H.
  - destruct bs as [|b r]; [reflexivity|]. exfalso.
    revert H. apply utf8_decode_nonempty. simpl. discriminate.
  - subst bs. reflexivity.
Qed.

(** ** [JSON.parse] after [JSON.stringify] *)

(** *** Digits *)

Lemma digit_of_is_digit (c : ascii) :
  match digit_of c with Some _ => is_digit c = true | None => is_digit c = false end.
Proof.
  destruct c as [[] [] [] [] [] [] [] []]; reflexivity.
Qed.

Lemma lex_digits_stop (rest : string) :
  head_is_digit rest = false -> lex_digits rest = (Nil, rest).
Proof.
  destruct rest as [|c r]; simpl; intro H; [reflexivity|].
  pose proof (digit_of_is_digit c) as Hc.
  destruct (digit_of c); [congruence | reflexivity].
Qed.

Lemma lex_digits_string_of_uint (u : uint) (rest : string) :
  head_is_digit rest = false ->
  lex_digits (NilEmpty.string_of_uint u +++ rest) = (u, rest).
Proof.
  intro H. induction u; simpl; try (rewrite IHu; reflexivity).
  apply lex_digits_stop. exact H.
Qed.

(** *** String literals *)

Lemma lex_string_escape_char (c : ascii) (t : string) :
  lex_string (escape_char c +++ t) = prepend (str1 c) (lex_string t).
Proof.
  destruct c as [[] [] [] [] [] [] [] []]; reflexivity.
Qed.

Lemma lex_string_quote_body (s rest : string) :
  lex_string (quote_body s +++ String dquote rest) = Some (s, rest).
Proof.
  induction s as [|c r IH]; simpl; [reflexivity|].
  rewrite append_assoc, lex_string_escape_char, IH. reflexivity.
Qed.

Lemma delimited_stops_number (rest : string) :
  delimited rest = true ->
  head_is_digit rest = false
  /\ lex_frac rest = Some (None, rest)
  /\ lex_exp rest = Some (None, rest).
Proof.
  destruct rest as [|c r]; [repeat split|].
  destruct c as [[] [] [] [] [] [] [] []]; simpl; intro H;
    try discriminate H; repeat split.
Qed.

Lemma to_uint_shape (n : N) :
  N.to_uint n = D0 Nil
  \/ match N.to_uint n with Nil | D0 _ => False | _ => True end.
Proof.
  pose proof (DecimalN.Unsigned.to_of (N.to_uint n)) as H.
  rewrite DecimalN.Unsigned.of_to in H. unfold unorm in H.
  destruct (nzhead (N.to_uint n)) eqn:Hz;
    try (right; rewrite H; exact I).
  - left. exact H.
  - exfalso. exact (nzhead_nonzero _ _ Hz).
Qed.

Lemma Z_of_uint_to_uint (n : N) : Z.of_uint (N.to_uint n) = Z.of_N n.
Proof.
  unfold Z.of_uint. change (Pos.of_uint (N.to_uint n)) with (N.of_uint (N.to_uint n)).
  rewrite DecimalN.Unsigned.of_to. reflexivity.
Qed.

Lemma is_digit_not_minus (c : ascii) : is_digit c = true -> Ascii.eqb c "-" = false.
Proof. destruct c as [[] [] [] [] [] [] [] []]; simpl; intro H; try discriminate H; reflexivity. Qed.

Lemma lex_number_signed (neg : bool) (body : string) :
  head_is_digit body = true ->
  lex_number ((if neg then "-" else "") +++ body) = lex_unsigned neg body.
Proof.
  destruct neg; [reflexivity|]. destruct body as [|c r]; [discriminate|].
  simpl. intro H. rewrite (is_digit_not_minus c H). reflexivity.
Qed.

(** *** Number literals *)
Lemma utake_udrop (n : nat) (u : uint) : Decimal.app (utake n u) (udrop n u) = u.
Proof.
  apply DecimalFacts.to_list_inj. unfold utake, udrop.
  rewrite DecimalFacts.app_spec, !DecimalFacts.to_list_of_list.
  apply firstn_skipn.
Qed.

Lemma nb_digits_udrop (n : nat) (u : uint) :
  nb_digits (udrop n u) = (nb_digits u - n)%nat.
Proof.
  unfold udrop.
  rewrite !DecimalFacts.nb_digits_spec, DecimalFacts.to_list_of_list.
  apply length_skipn.
Qed.

Lemma udrop_nonnil (n : nat) (u : uint) : (n < nb_digits u)%nat -> udrop n u <> Nil.
Proof.
  intro H. apply DecimalFacts.nb_digits_n0. rewrite nb_digits_udrop. lia.
Qed.

Lemma utake_leads (n : nat) (u : uint) : leads u -> leads (utake (S n) u).
Proof. destruct u; simpl; intro H; try contradiction; exact I. Qed.

Lemma to_uint_leads (n : N) : (0 < n)%N -> leads (N.to_uint n).
Proof.
  intro H. destruct (to_uint_shape n) as [Hz|Hl]; [|exact Hl].
  exfalso. apply (f_equal N.of_uint) in Hz.
  rewrite DecimalN.Unsigned.of_to in Hz. simpl in Hz. lia.
Qed.

Lemma leads_nb_digits (u : uint) : leads u -> (0 < nb_digits u)%nat.
Proof. destruct u; simpl; intro H; try contradiction; lia. Qed.

Lemma lex_int_leads (u : uint) (rest : string) :
  leads u ->
  head_is_digit rest = false ->
  lex_int (digit_text u +++ rest) = Some (u, rest).
Proof.
  intros Hu Hrest. unfold digit_text.
  pose proof (lex_digits_string_of_uint u rest Hrest) as Hl.
  destruct u; try contradiction;
    match goal with
    | |- lex_int (NilEmpty.string_of_uint ?d +++ rest) = _ =>
        transitivity (Some (lex_digits (NilEmpty.string_of_uint d +++ rest)));
        [reflexivity | rewrite Hl; reflexivity]
    end.
Qed.

Lemma leads_head_is_digit (u : uint) (rest : string) :
  leads u -> head_is_digit (digit_text u +++ rest) = true.
Proof. destruct u; simpl; intro H; try contradiction; reflexivity. Qed.

Lemma lex_frac_digits (f : uint) (tail : string) :
  f <> Nil ->
  head_is_digit tail = false ->
  lex_frac ("." +++ digit_text f +++ tail) = Some (Some f, tail).
Proof.
  intros Hf Htail. unfold lex_frac, digit_text. cbn [append Ascii.eqb Bool.eqb].
  rewrite (lex_digits_string_of_uint f tail Htail).
  destruct f; try reflexivity. exfalso. apply Hf. reflexivity.
Qed.

Lemma to_uint_nonnil (n : N) : N.to_uint n <> Nil.
Proof.
  destruct (to_uint_shape n) as [Hz|Hl]; [rewrite Hz; discriminate|].
  destruct (N.to_uint n); try contradiction; discriminate.
Qed.

Lemma lex_exp_digits (x : Z) (rest : string) :
  head_is_digit rest = false ->
  lex_exp ("e" +++ (if x <? 0 then "-" else "+") +++ digits (Z.abs_N x) +++ rest)
  = Some (Some x, rest).
Proof.
  intro Hrest. unfold lex_exp, digits.
  pose proof (lex_digits_string_of_uint (N.to_uint (Z.abs_N x)) rest Hrest) as Hl.
  pose proof (to_uint_nonnil (Z.abs_N x)) as Hn.
  pose proof (Z_of_uint_to_uint (Z.abs_N x)) as Hz.
  rewrite N2Z.inj_abs_N in Hz.
  destruct (Z.ltb_spec x 0); cbn [append Ascii.eqb Bool.eqb orb]; rewrite Hl;
    destruct (N.to_uint (Z.abs_N x)); try (exfalso; apply Hn; reflexivity);
    rewrite Hz; do 3 f_equal; lia.
Qed.

Lemma reduce_canonical (fuel : nat) (m e : Z) :
  m mod 10 <> 0 -> reduce (S fuel) m e = NDec m e.
Proof.
  intro H. simpl. destruct (Z.eqb_spec (m mod 10) 0); [contradiction | reflexivity].
Qed.

Lemma scaled_canonical (m e : Z) :
  e < 0 -> m mod 10 <> 0 -> scaled m e = NDec m e.
Proof.
  intros He Hm. unfold scaled.
  destruct (Z.leb_spec 0 e); [lia|].
  destruct (Z.to_nat (- e)) eqn:Hn; [lia|].
  apply reduce_canonical. exact Hm.
Qed.

Lemma of_uint_leading_zeros (j : nat) (u : uint) :
  Z.of_uint (Nat.iter j D0 u) = Z.of_uint u.
Proof. induction j as [|j IH]; [reflexivity|]. simpl. exact IH. Qed.

Lemma signed_abs (m : Z) : (if m <? 0 then - Z.abs m else Z.abs m) = m.
Proof. destruct (Z.ltb_spec m 0); lia. Qed.

Lemma lex_int_head (s : string) (u : uint) (r : string) :
  lex_int s = Some (u, r) -> head_is_digit s = true.
Proof.
  unfold lex_int. destruct s as [|c s1]; [discriminate|]. simpl.
  destruct (Ascii.eqb_spec c "0"); [subst c; reflexivity|].
  destruct (is_digit c); [reflexivity | discriminate].
Qed.

Lemma lex_unsigned_head (neg : bool) (s : string) (x : number) (r : string) :
  lex_unsigned neg s = Some (x, r) -> head_is_digit s = true.
Proof.
  unfold lex_unsigned. destruct (lex_int s) as [[u s1]|] eqn:Hi; [|discriminate].
  intros _. exact (lex_int_head _ _ _ Hi).
Qed.

Lemma utake_all (u : uint) : nb_digits u = 1%nat -> utake 1 u = u.
Proof.
  intro H. pose proof (utake_udrop 1 u) as Happ.
  assert (Hd : udrop 1 u = Nil).
  { apply DecimalFacts.nb_digits_0. rewrite nb_digits_udrop. lia. }
  rewrite Hd, DecimalFacts.app_nil_r in Happ. exact Happ.
Qed.

Lemma lex_unsigned_positional (neg : bool) (u : uint) (j : nat) (rest : string) :
  leads u ->
  (S j < nb_digits u)%nat ->
  delimited rest = true ->
  lex_unsigned neg
    ((digit_text (utake (S j) u) +++ "." +++ digit_text (udrop (S j) u)) +++ rest)
  = Some (scaled (if neg then - Z.of_uint u else Z.of_uint u)
                 (Z.of_nat (S j) - Z.of_nat (nb_digits u)), rest).
Proof.
  intros Hu Hj Hrest.
  destruct (delimited_stops_number rest Hrest) as (Hd & Hf & He).
  rewrite !append_assoc. unfold lex_unsigned.
  rewrite lex_int_leads; [|apply utake_leads; exact Hu | reflexivity].
  cbv beta iota.
  rewrite lex_frac_digits; [|apply udrop_nonnil; lia | exact Hd].
  cbv beta iota. rewrite He. unfold mk_number.
  rewrite utake_udrop, nb_digits_udrop.
  replace (0 - Z.of_nat (nb_digits u - S j))
    with (Z.of_nat (S j) - Z.of_nat (nb_digits u)) by lia.
  reflexivity.
Qed.

Lemma lex_unsigned_fraction (neg : bool) (u : uint) (j : nat) (rest : string) :
  leads u ->
  delimited rest = true ->
  lex_unsigned neg (("0." +++ digit_text (Nat.iter j D0 u)) +++ rest)
  = Some (scaled (if neg then - Z.of_uint u else Z.of_uint u)
                 (- Z.of_nat j - Z.of_nat (nb_digits u)), rest).
Proof.
  intros Hu Hrest.
  destruct (delimited_stops_number rest Hrest) as (Hd & Hf & He).
  unfold lex_unsigned.
  change (lex_int (("0." +++ digit_text (Nat.iter j D0 u)) +++ rest))
    with (Some (D0 Nil, "." +++ digit_text (Nat.iter j D0 u) +++ rest)).
  cbv beta iota.
  rewrite lex_frac_digits; [| | exact Hd].
  - cbv beta iota. rewrite He. unfold mk_number.
    change (Decimal.app (D0 Nil) (Nat.iter j D0 u)) with (D0 (Nat.iter j D0 u)).
    change (Z.of_uint (D0 (Nat.iter j D0 u))) with (Z.of_uint (Nat.iter j D0 u)).
    rewrite of_uint_leading_zeros, DecimalFacts.nb_digits_iter_D0.
    replace (0 - Z.of_nat (j + nb_digits u))
      with (- Z.of_nat j - Z.of_nat (nb_digits u)) by lia.
    reflexivity.
  - destruct j; simpl; [destruct u; try contradiction; discriminate | discriminate].
Qed.

Lemma lex_unsigned_exponent (neg : bool) (u : uint) (x : Z) (rest : string) :
  leads u ->
  delimited rest = true ->
  lex_unsigned neg
    ((digit_text (utake 1 u)
        +++ (if Z.of_nat (nb_digits u) =? 1 then "" else "." +++ digit_text (udrop 1 u))
        +++ "e" +++ (if x <? 0 then "-" else "+") +++ digits (Z.abs_N x)) +++ rest)
  = Some (scaled (if neg then - Z.of_uint u else Z.of_uint u)
                 (x + 1 - Z.of_nat (nb_digits u)), rest).
Proof.
  intros Hu Hrest.
  destruct (delimited_stops_number rest Hrest) as (Hd & Hf & He).
  pose proof (leads_nb_digits u Hu) as Hk.
  rewrite !append_assoc. unfold lex_unsigned.
  destruct (Z.eqb_spec (Z.of_nat (nb_digits u)) 1) as [H1|H1].
  - change ("" +++ ?t) with t.
    rewrite lex_int_leads; [|apply utake_leads; exact Hu | reflexivity].
    cbv beta iota.
    change (lex_frac ("e" +++ ?t)) with (Some (@None uint, "e" +++ t)).
    cbv beta iota. rewrite lex_exp_digits by exact Hd.
    unfold mk_number. rewrite DecimalFacts.app_nil_r, utake_all by lia.
    replace (x - Z.of_nat (nb_digits Nil)) with (x + 1 - Z.of_nat (nb_digits u))
      by (simpl; lia).
    reflexivity.
  - rewrite !append_assoc.
    rewrite lex_int_leads; [|apply utake_leads; exact Hu | reflexivity].
    cbv beta iota.
    rewrite lex_frac_digits; [|apply udrop_nonnil; lia | reflexivity].
    cbv beta iota. rewrite lex_exp_digits by exact Hd.
    unfold mk_number. rewrite utake_udrop, nb_digits_udrop.
    replace (x - Z.of_nat (nb_digits u - 1)) with (x + 1 - Z.of_nat (nb_digits u)) by lia.
    reflexivity.
Qed.

Lemma app_digit (d : uint -> uint) (x : DecimalFacts.digits) (u v : uint) :
  (forall w, DecimalFacts.to_list (d w) = x :: DecimalFacts.to_list w) ->
  Decimal.app (d u) v = d (Decimal.app u v).
Proof.
  intro H. apply DecimalFacts.to_list_inj.
  rewrite DecimalFacts.app_spec, (H u), (H (Decimal.app u v)), DecimalFacts.app_spec.
  reflexivity.
Qed.

Lemma lex_digits_app (u : uint) (s : string) :
  lex_digits (digit_text u +++ s)
  = (Decimal.app u (fst (lex_digits s)), snd (lex_digits s)).
Proof.
  unfold digit_text.
  induction u; cbn [NilEmpty.string_of_uint append];
    [rewrite DecimalFacts.app_nil_l; destruct (lex_digits s); reflexivity|..];
    cbn [lex_digits digit_of]; rewrite IHu;
    erewrite app_digit by (intro w; reflexivity); reflexivity.
Qed.

Lemma lex_digits_zeros (j : nat) (rest : string) :
  head_is_digit rest = false ->
  lex_digits (repeat_char "0" j +++ rest) = (Nat.iter j D0 Nil, rest).
Proof.
  intro H. induction j as [|j IH]; [apply lex_digits_stop; exact H|].
  cbn [repeat_char append lex_digits digit_of]. rewrite IH. reflexivity.
Qed.

Lemma iter_mul10 (j : nat) (a : Z) :
  Nat.iter j (Z.mul 10) a = a * 10 ^ Z.of_nat j.
Proof.
  induction j as [|j IH]; [simpl; lia|].
  rewrite Nat2Z.inj_succ, Z.pow_succ_r by lia.
  change (Nat.iter (S j) (Z.mul 10) a) with (10 * Nat.iter j (Z.mul 10) a).
  rewrite IH. ring.
Qed.

Lemma signed_mul (neg : bool) (a p : Z) :
  (if neg then - (a * p) else a * p) = (if neg then - a else a) * p.
Proof. destruct neg; ring. Qed.

(** Significant digits followed by zeros, with no fraction and no exponent,
    are read as the integer they spell. *)
Lemma lex_unsigned_integral (neg : bool) (u : uint) (j : nat) (rest : string) :
  leads u ->
  delimited rest = true ->
  lex_unsigned neg ((digit_text u +++ repeat_char "0" j) +++ rest)
  = Some (NInt ((if neg then - Z.of_uint u else Z.of_uint u) * 10 ^ Z.of_nat j), rest).
Proof.
  intros Hu Hrest.
  destruct (delimited_stops_number rest Hrest) as (Hd & Hf & He).
  rewrite append_assoc. unfold lex_unsigned.
  assert (Hint : lex_int (digit_text u +++ repeat_char "0" j +++ rest)
                 = Some (Decimal.app u (Nat.iter j D0 Nil), rest)).
  { transitivity (Some (lex_digits (digit_text u +++ repeat_char "0" j +++ rest))).
    - destruct u; try contradiction; reflexivity.
    - rewrite lex_digits_app, (lex_digits_zeros j rest Hd). reflexivity. }
  rewrite Hint. cbv beta iota. rewrite Hf. cbv beta iota. rewrite He.
  unfold mk_number. rewrite DecimalZ.of_uint_iter_D0, iter_mul10, signed_mul.
  reflexivity.
Qed.

(** A number laid out by [Number::toString] is read back as the number whose
    digits and scale were laid out. *)
Lemma lex_unsigned_layout (neg : bool) (u : uint) (n : Z) (rest : string) :
  leads u ->
  delimited rest = true ->
  lex_unsigned neg (layout u n +++ rest)
  = Some (scaled (if neg then - Z.of_uint u else Z.of_uint u)
                 (n - Z.of_nat (nb_digits u)), rest).
Proof.
  intros Hu Hrest. unfold layout.
  assert (Hexp : lex_unsigned neg
            ((digit_text (utake 1 u)
                +++ (if Z.of_nat (nb_digits u) =? 1 then ""
                     else "." +++ digit_text (udrop 1 u))
                +++ "e" +++ (if n - 1 <? 0 then "-" else "+")
                +++ digits (Z.abs_N (n - 1))) +++ rest)
          = Some (scaled (if neg then - Z.of_uint u else Z.of_uint u)
                         (n - Z.of_nat (nb_digits u)), rest)).
  { rewrite (lex_unsigned_exponent neg u (n - 1) rest Hu Hrest).
    replace (n - 1 + 1) with n by lia. reflexivity. }
  match goal with
  | |- context [if _ then "0." +++ _ else ?e] => set (E := e) in *
  end.
  destruct (Z.leb_spec (Z.of_nat (nb_digits u)) n) as [Hle|Hlt];
    destruct (Z.leb_spec n 21) as [H21|H21];
    destruct (Z.ltb_spec 0 n) as [Hpos|Hnp];
    destruct (Z.ltb_spec (-6) n) as [H6|H6];
    destruct (Z.leb_spec n 0) as [H0|H0];
    cbn [andb]; try lia; try exact Hexp.
  - rewrite (lex_unsigned_integral neg u (Z.to_nat (n - Z.of_nat (nb_digits u)))
               rest Hu Hrest).
    unfold scaled. destruct (Z.leb_spec 0 (n - Z.of_nat (nb_digits u))); [|lia].
    rewrite Z2Nat.id by lia. reflexivity.
  - pose proof (leads_nb_digits u Hu). lia.
  - destruct (Z.to_nat n) as [|j] eqn:Hj; [lia|].
    rewrite lex_unsigned_positional; [|exact Hu | lia | exact Hrest].
    replace (Z.of_nat (S j)) with n by lia. reflexivity.
  - rewrite lex_unsigned_fraction; [|exact Hu | exact Hrest].
    replace (- Z.of_nat (Z.to_nat (- n))) with n by lia. reflexivity.
Qed.

Lemma lex_number_decimal (m e : Z) (rest : string) :
  e < 0 ->
  m mod 10 <> 0 ->
  delimited rest = true ->
  lex_number (Number_toString (NDec m e) +++ rest) = Some (NDec m e, rest).
Proof.
  intros He Hm Hrest. unfold Number_toString, sign_text.
  assert (Hnz : (0 < Z.abs_N m)%N).
  { destruct (Z.eq_dec m 0) as [->|Hne]; [exfalso; apply Hm; reflexivity | lia]. }
  pose proof (to_uint_leads _ Hnz) as Hu.
  pose proof (lex_unsigned_layout (m <? 0) (N.to_uint (Z.abs_N m))
                (Z.of_nat (nb_digits (N.to_uint (Z.abs_N m))) + e) rest Hu Hrest) as Hl.
  rewrite append_assoc, lex_number_signed.
  - rewrite Hl, Z_of_uint_to_uint, N2Z.inj_abs_N, signed_abs.
    replace (Z.of_nat (nb_digits (N.to_uint (Z.abs_N m))) + e
             - Z.of_nat (nb_digits (N.to_uint (Z.abs_N m)))) with e by lia.
    rewrite (scaled_canonical m e He Hm). reflexivity.
  - exact (lex_unsigned_head _ _ _ _ Hl).
Qed.

(** *** Integers *)

Lemma nztail_leads (u : uint) : leads u -> leads (DecimalFacts.nztail u).
Proof. destruct u; simpl; intro H; try contradiction; exact I. Qed.

Lemma nztail_app_step (d : uint -> uint) (x : DecimalFacts.digits) (t u : uint) :
  (forall w, DecimalFacts.to_list (d w) = x :: DecimalFacts.to_list w) ->
  (forall w, nb_digits (d w) = S (nb_digits w)) ->
  (nb_digits t <= nb_digits u)%nat
  /\ Decimal.app t (Nat.iter (nb_digits u - nb_digits t) D0 Nil) = u ->
  (nb_digits (d t) <= nb_digits (d u))%nat
  /\ Decimal.app (d t) (Nat.iter (nb_digits (d u) - nb_digits (d t)) D0 Nil) = d u.
Proof.
  intros Hl Hn [Hle Happ]. rewrite !Hn. split; [lia|].
  rewrite (app_digit d x _ _ Hl).
  replace (S (nb_digits u) - S (nb_digits t))%nat
    with (nb_digits u - nb_digits t)%nat by lia.
  rewrite Happ. reflexivity.
Qed.

Lemma nztail_app (u : uint) :
  (nb_digits (DecimalFacts.nztail u) <= nb_digits u)%nat
  /\ Decimal.app (DecimalFacts.nztail u)
       (Nat.iter (nb_digits u - nb_digits (DecimalFacts.nztail u)) D0 Nil) = u.
Proof.
  induction u as [|u IH|u IH|u IH|u IH|u IH|u IH|u IH|u IH|u IH|u IH];
    [split; [simpl; lia | reflexivity] | |
     cbn [DecimalFacts.nztail];
     eapply nztail_app_step; [intro w; reflexivity | intro w; reflexivity | exact IH] ..].
  cbn [DecimalFacts.nztail]. destruct (DecimalFacts.nztail u) eqn:Ht;
    try (eapply nztail_app_step;
         [intro w; reflexivity | intro w; reflexivity | exact IH]).
  destruct IH as [_ IHa]. cbn [nb_digits] in *. split; [lia|].
  rewrite DecimalFacts.app_nil_l in *. rewrite Nat.sub_0_r in *.
  change (Nat.iter (S (nb_digits u)) D0 Nil) with (D0 (Nat.iter (nb_digits u) D0 Nil)).
  rewrite IHa. reflexivity.
Qed.

Lemma of_uint_nztail (u : uint) :
  Z.of_uint u
  = Z.of_uint (DecimalFacts.nztail u)
    * 10 ^ (Z.of_nat (nb_digits u) - Z.of_nat (nb_digits (DecimalFacts.nztail u))).
Proof.
  destruct (nztail_app u) as [Hn Ha].
  rewrite <- Ha at 1. rewrite DecimalZ.of_uint_iter_D0, iter_mul10.
  f_equal. f_equal. lia.
Qed.

(** What [Number::toString] prints for an integer, in positional or in
    exponent form, is read back as that integer. *)
Lemma lex_number_integer (z : Z) (rest : string) :
  delimited rest = true ->
  lex_number (Number_toString (NInt z) +++ rest) = Some (NInt z, rest).
Proof.
  intro Hrest. destruct (Z.eq_dec z 0) as [->|Hz].
  - destruct (delimited_stops_number rest Hrest) as (Hd & Hf & He).
    change (Number_toString (NInt 0) +++ rest) with (String "0" rest).
    unfold lex_number. cbn [Ascii.eqb Bool.eqb]. unfold lex_unsigned.
    cbn [lex_int Ascii.eqb Bool.eqb]. rewrite Hf, He. reflexivity.
  - unfold Number_toString, sign_text.
    assert (Hnz : (0 < Z.abs_N z)%N) by lia.
    pose proof (nztail_leads _ (to_uint_leads _ Hnz)) as Hu.
    pose proof (lex_unsigned_layout (z <? 0) _
                  (Z.of_nat (nb_digits (N.to_uint (Z.abs_N z)))) rest Hu Hrest) as Hl.
    rewrite append_assoc, lex_number_signed.
    + rewrite Hl. unfold scaled.
      destruct (nztail_app (N.to_uint (Z.abs_N z))) as [Hn _].
      destruct (Z.leb_spec 0 (Z.of_nat (nb_digits (N.to_uint (Z.abs_N z)))
                              - Z.of_nat (nb_digits (DecimalFacts.nztail
                                                       (N.to_uint (Z.abs_N z))))));
        [|lia].
      rewrite <- signed_mul, <- of_uint_nztail, Z_of_uint_to_uint, N2Z.inj_abs_N,
        signed_abs.
      reflexivity.
    + exact (lex_unsigned_head _ _ _ _ Hl).
Qed.

(** *** Integers below [10^21] are printed digit by digit *)

Lemma of_uint_acc_lower (u : uint) (acc : positive) :
  Z.pos acc * 10 ^ Z.of_nat (nb_digits u) <= Z.pos (Pos.of_uint_acc u acc).
Proof.
  revert acc. induction u as [|u IH|u IH|u IH|u IH|u IH|u IH|u IH|u IH|u IH|u IH];
    intro acc; [simpl; lia|..];
    cbn [Pos.of_uint_acc nb_digits];
    rewrite Nat2Z.inj_succ, Z.pow_succ_r by lia;
    (eapply Z.le_trans; [|apply IH]);
    assert (0 < 10 ^ Z.of_nat (nb_digits u)) by (apply Z.pow_pos_nonneg; lia);
    nia.
Qed.

Lemma of_uint_lower (u : uint) :
  leads u -> 10 ^ (Z.of_nat (nb_digits u) - 1) <= Z.of_uint u.
Proof.
  destruct u; intro H; try (exfalso; exact H);
    unfold Z.of_uint; cbn [Pos.of_uint Z.of_N nb_digits];
    rewrite Nat2Z.inj_succ;
    replace (Z.succ (Z.of_nat (nb_digits u)) - 1) with (Z.of_nat (nb_digits u)) by lia;
    (eapply Z.le_trans; [|apply of_uint_acc_lower]);
    assert (0 < 10 ^ Z.of_nat (nb_digits u)) by (apply Z.pow_pos_nonneg; lia);
    nia.
Qed.

Lemma string_of_uint_app (u v : uint) :
  NilEmpty.string_of_uint (Decimal.app u v)
  = NilEmpty.string_of_uint u +++ NilEmpty.string_of_uint v.
Proof.
  induction u; [rewrite DecimalFacts.app_nil_l; reflexivity|..];
    erewrite app_digit by (intro w; reflexivity);
    cbn [NilEmpty.string_of_uint append]; rewrite IHu; reflexivity.
Qed.

Lemma string_of_uint_zeros (j : nat) :
  NilEmpty.string_of_uint (Nat.iter j D0 Nil) = repeat_char "0" j.
Proof. induction j as [|j IH]; [reflexivity|]. simpl. rewrite IH. reflexivity. Qed.

Lemma layout_integer (n : N) :
  (n < 10 ^ 21)%N ->
  layout (DecimalFacts.nztail (N.to_uint n)) (Z.of_nat (nb_digits (N.to_uint n)))
  = digits n.
Proof.
  intro Hn. destruct (N.eq_dec n 0) as [->|Hz]; [reflexivity|].
  assert (Hu : leads (N.to_uint n)) by (apply to_uint_leads; lia).
  pose proof (of_uint_lower _ Hu) as Hlow. rewrite Z_of_uint_to_uint in Hlow.
  destruct (nztail_app (N.to_uint n)) as [Hle Happ].
  assert (H21 : Z.of_nat (nb_digits (N.to_uint n)) <= 21).
  { destruct (Z.le_gt_cases (Z.of_nat (nb_digits (N.to_uint n))) 21) as [H|H];
      [exact H|]. exfalso.
    assert (10 ^ 21 <= 10 ^ (Z.of_nat (nb_digits (N.to_uint n)) - 1))
      by (apply Z.pow_le_mono_r; lia).
    assert (Z.of_N n < 10 ^ 21).
    { change (10 ^ 21) with (Z.of_N (10 ^ 21)). lia. }
    lia. }
  unfold layout.
  destruct (Z.leb_spec (Z.of_nat (nb_digits (DecimalFacts.nztail (N.to_uint n))))
                       (Z.of_nat (nb_digits (N.to_uint n)))) as [_|H]; [|lia].
  destruct (Z.leb_spec (Z.of_nat (nb_digits (N.to_uint n))) 21) as [_|H]; [|lia].
  cbn [andb]. unfold digits, digit_text.
  etransitivity; [|exact (f_equal NilEmpty.string_of_uint Happ)].
  rewrite string_of_uint_app, string_of_uint_zeros.
  f_equal. f_equal. lia.
Qed.

Lemma Number_toString_integer (z : Z) :
  Z.abs z < 10 ^ 21 ->
  Number_toString (NInt z) = sign_text z +++ digits (Z.abs_N z).
Proof.
  intro H. unfold Number_toString. rewrite layout_integer; [reflexivity|].
  apply N2Z.inj_lt. rewrite N2Z.inj_abs_N. exact H.
Qed.

(** *** Objects rebuilt property by property *)

Lemma set_prop_append (k : string) (v : value) (acc : list (string * value)) :
  forallb (fun p => negb (String.eqb k (fst p)) && negb (precedes k (fst p))) acc = true ->
  set_prop k v acc = (acc ++ [(k, v)])%list.
Proof.
  induction acc as [|[k' v'] r IH]; simpl; intro H; [reflexivity|].
  apply andb_true_iff in H. destruct H as [Hk Hr].
  apply andb_true_iff in Hk. destruct Hk as [Hne Hpre].
  apply negb_true_iff in Hne. apply negb_true_iff in Hpre.
  rewrite Hne, Hpre, (IH Hr). reflexivity.
Qed.

Lemma props_ordered_app (a : list string) (k : string) (b : list string) :
  props_ordered (a ++ k :: b)%list = true ->
  forallb (fun k' => negb (String.eqb k k') && negb (precedes k k')) a = true
  /\ props_ordered (a ++ [k])%list = true.
Proof.
  induction a as [|k0 a IH]; simpl; intro H.
  - split; reflexivity.
  - apply andb_true_iff in H. destruct H as [Hall Hord].
    destruct (IH Hord) as [IH1 IH2].
    rewrite forallb_app in Hall. apply andb_true_iff in Hall.
    destruct Hall as [Ha Hkb]. simpl in Hkb.
    apply andb_true_iff in Hkb. destruct Hkb as [Hk _].
    split.
    + rewrite Hk, IH1. reflexivity.
    + rewrite forallb_app, Ha, IH2. simpl. rewrite Hk. reflexivity.
Qed.

Lemma fold_set_prop (ms acc : list (string * value)) :
  props_ordered (map fst (acc ++ ms)%list) = true ->
  fold_left (fun a p => set_prop (fst p) (snd p) a) ms acc = (acc ++ ms)%list.
Proof.
  revert acc. induction ms as [|[k v] r IH]; intros acc H; simpl.
  - rewrite List.app_nil_r. reflexivity.
  - rewrite map_app in H. simpl in H.
    destruct (props_ordered_app _ _ _ H) as [Hk _].
    rewrite set_prop_append.
    + rewrite IH; rewrite <- List.app_assoc; [reflexivity|].
      simpl. rewrite map_app. exact H.
    + clear -Hk. induction acc as [|p acc IHa]; simpl in *; [reflexivity|].
      apply andb_true_iff in Hk. destruct Hk as [Hp Hrest].
      rewrite Hp, (IHa Hrest). reflexivity.
Qed.

Lemma build_object_ordered (ps : list (string * value)) :
  props_ordered (map fst ps) = true -> build_object ps = VObj ps.
Proof.
  intro H. unfold build_object. rewrite fold_set_prop; [reflexivity | exact H].
Qed.

(** *** Parsing the text of a value *)

Lemma parse_value_number (n : nat) (c : ascii) (r : string) :
  is_digit c || Ascii.eqb c "-" = true ->
  parse_value (S n) (String c r)
  = match lex_number (String c r) with
    | Some (x, rest) => Some (VNum x, rest)
    | None => None
    end.
Proof.
  destruct c as [[] [] [] [] [] [] [] []]; simpl; intro H;
    try discriminate H; reflexivity.
Qed.

Lemma parse_value_string (n : nat) (r : string) :
  parse_value (S n) (String dquote r)
  = match lex_string r with
    | Some (t, rest) => Some (VStr t, rest)
    | None => None
    end.
Proof. reflexivity. Qed.

Lemma parse_value_array (n : nat) (r : string) :
  parse_value (S n) (String "[" r)
  = match expect "]" r with
    | Some r' => Some (VArr [], r')
    | None =>
        match parse_elements n r with
        | Some (xs, rest) => Some (VArr xs, rest)
        | None => None
        end
    end.
Proof. reflexivity. Qed.

Lemma parse_value_object (n : nat) (r : string) :
  parse_value (S n) (String "{" r)
  = match expect "}" r with
    | Some r' => Some (VObj [], r')
    | None =>
        match parse_members n r with
        | Some (ms, rest) => Some (build_object ms, rest)
        | None => None
        end
    end.
Proof. reflexivity. Qed.

Lemma parse_elements_step (n : nat) (s : string) :
  parse_elements (S n) s
  = match parse_value n s with
    | Some (v, r) =>
        match expect "," r with
        | Some r' =>
            match parse_elements n r' with
            | Some (vs, rest) => Some (v :: vs, rest)
            | None => None
            end
        | None =>
            match expect "]" r with
            | Some r' => Some ([v], r')
            | None => None
            end
        end
    | None => None
    end.
Proof. reflexivity. Qed.

Lemma parse_members_step (n : nat) (s : string) :
  parse_members (S n) s
  = match expect dquote s with
    | Some r0 =>
        match lex_string r0 with
        | Some (k, r1) =>
            match expect ":" r1 with
            | Some r2 =>
                match parse_value n r2 with
                | Some (v, r3) =>
                    match expect "," r3 with
                    | Some r' =>
                        match parse_members n r' with
                        | Some (ms, rest) => Some ((k, v) :: ms, rest)
                        | None => None
                        end
                    | None =>
                        match expect "}" r3 with
                        | Some r' => Some ([(k, v)], r')
                        | None => None
                        end
                    end
                | None => None
                end
            | None => None
            end
        | None => None
        end
    | None => None
    end.
Proof. reflexivity. Qed.

Lemma expect_value_head (t rest : string) :
  starts_value t = true ->
  expect "]" (t +++ rest) = None /\ expect "}" (t +++ rest) = None.
Proof.
  destruct t as [|c r]; [discriminate|].
  destruct c as [[] [] [] [] [] [] [] []]; simpl; intro H;
    try discriminate H; split; reflexivity.
Qed.

Lemma json_safe_stringify (v : value) :
  json_safe v = true -> JSON_stringify v = Some (item_text v).
Proof.
  unfold item_text. destruct v as [| |b|n|s|t|k bs|xs|ps]; simpl;
    intro H; try discriminate H; reflexivity.
Qed.

Lemma value_head_number (c : ascii) :
  is_digit c || Ascii.eqb c "-" = true -> value_head c = true.
Proof.
  unfold value_head. intro H. rewrite H. reflexivity.
Qed.

Lemma parses_back_null : parses_back VNull.
Proof.
  split; [reflexivity|]. intros n rest Hn _.
  destruct n as [|n]; [simpl in Hn; lia | reflexivity].
Qed.

Lemma parses_back_bool (b : bool) : parses_back (VBool b).
Proof.
  split; [destruct b; reflexivity|]. intros n rest Hn _.
  destruct n as [|n]; [destruct b; simpl in Hn; lia | destruct b; reflexivity].
Qed.

Lemma parses_back_number (x : number) :
  item_text (VNum x) = Number_toString x ->
  (forall rest, delimited rest = true ->
                lex_number (Number_toString x +++ rest) = Some (x, rest)) ->
  parses_back (VNum x).
Proof.
  intros Htext Hlex. unfold parses_back. rewrite Htext.
  pose proof (Hlex "" eq_refl) as Hnil. rewrite append_nil_r in Hnil.
  assert (Hhead : exists c r, Number_toString x = String c r
                              /\ is_digit c || Ascii.eqb c "-" = true).
  { unfold lex_number in Hnil.
    destruct (Number_toString x) as [|c r]; [discriminate|].
    exists c, r. split; [reflexivity|].
    destruct (Ascii.eqb c "-"); [apply orb_true_r|].
    apply lex_unsigned_head in Hnil. simpl in Hnil. rewrite Hnil. reflexivity. }
  destruct Hhead as (c & r & Hc & Hh).
  split.
  - rewrite Hc. simpl. apply value_head_number. exact Hh.
  - intros n rest Hn Hrest.
    destruct n as [|n]; [rewrite Hc in Hn; simpl in Hn; lia|].
    pose proof (Hlex rest Hrest) as Hl.
    rewrite Hc in *. cbn [append] in *.
    rewrite parse_value_number by exact Hh. rewrite Hl. reflexivity.
Qed.

Lemma parses_back_string (s : string) : parses_back (VStr s).
Proof.
  split; [reflexivity|]. intros n rest Hn _.
  destruct n as [|n]; [simpl in Hn; lia|].
  change (item_text (VStr s)) with (String dquote (quote_body s +++ str1 dquote)).
  cbn [append].
  rewrite parse_value_string, append_assoc. cbn [str1 append].
  rewrite lex_string_quote_body. reflexivity.
Qed.

Lemma concat_cons2 (sep a b : string) (l : list string) :
  String.concat sep (a :: b :: l) = a +++ sep +++ String.concat sep (b :: l).
Proof. reflexivity. Qed.

Lemma parse_elements_back (xs : list value) :
  xs <> [] ->
  Forall (fun x => json_safe x = true -> parses_back x) xs ->
  forallb json_safe xs = true ->
  forall n rest,
    (2 * String.length (String.concat "," (map item_text xs)) + 1 <= n)%nat ->
    parse_elements n (String.concat "," (map item_text xs) +++ "]" +++ rest)
    = Some (xs, rest).
Proof.
  intros Hne Hall. induction Hall as [|x r Hx Hr IH]; [congruence|].
  intros Hsafe n rest Hn. simpl in Hsafe.
  apply andb_true_iff in Hsafe. destruct Hsafe as [Hsx Hsr].
  destruct (Hx Hsx) as [_ Hparse].
  destruct n as [|n]; [lia|]. rewrite parse_elements_step.
  destruct r as [|y r'].
  - simpl map in *. simpl String.concat in *.
    rewrite (Hparse n ("]" +++ rest)); [reflexivity | lia | reflexivity].
  - change (map item_text (x :: y :: r'))
      with (item_text x :: item_text y :: map item_text r') in *.
    rewrite concat_cons2 in *. rewrite !length_append in Hn.
    change (String.length ",") with 1%nat in Hn.
    rewrite !append_assoc.
    rewrite (Hparse n ("," +++
              String.concat "," (item_text y :: map item_text r') +++ "]" +++ rest));
      [|lia|reflexivity].
    change (expect "," ("," +++ String.concat "," (item_text y :: map item_text r')
                            +++ "]" +++ rest))
      with (Some (String.concat "," (item_text y :: map item_text r') +++ "]" +++ rest)).
    change (item_text y :: map item_text r') with (map item_text (y :: r')) in *.
    cbv beta iota.
    rewrite IH; [reflexivity | discriminate | exact Hsr | lia].
Qed.

Lemma member_text_app (k : string) (v : value) (tail : string) :
  member_text (k, v) +++ tail
  = String dquote (quote_body k +++ String dquote (String ":" (item_text v +++ tail))).
Proof.
  unfold member_text, JSON_quote. simpl fst. simpl snd. cbn [append].
  rewrite !append_assoc. reflexivity.
Qed.

Lemma parse_members_back (ps : list (string * value)) :
  ps <> [] ->
  Forall (fun p => json_safe (snd p) = true -> parses_back (snd p)) ps ->
  forallb (fun p => utf8_valid (fst p) && json_safe (snd p)) ps = true ->
  forall n rest,
    (2 * String.length (String.concat "," (map member_text ps)) + 1 <= n)%nat ->
    parse_members n (String.concat "," (map member_text ps) +++ "}" +++ rest)
    = Some (ps, rest).
Proof.
  intros Hne Hall. induction Hall as [|[k v] r Hx Hr IH]; [congruence|].
  intros Hsafe n rest Hn. simpl in Hsafe.
  apply andb_true_iff in Hsafe. destruct Hsafe as [Hsx Hsr].
  apply andb_true_iff in Hsx. destruct Hsx as [_ Hsv].
  destruct (Hx Hsv) as [_ Hparse]. simpl snd in Hparse.
  destruct n as [|n]; [lia|]. rewrite parse_members_step.
  assert (Hlen : (String.length (item_text v) < String.length (member_text (k, v)))%nat).
  { unfold member_text, JSON_quote. simpl. rewrite !length_append. simpl. lia. }
  destruct r as [|q r'].
  - simpl map in *. simpl String.concat in *.
    rewrite member_text_app.
    change (expect dquote (String dquote ?x)) with (Some x). cbv beta iota.
    rewrite lex_string_quote_body. cbv beta iota.
    change (expect ":" (String ":" ?x)) with (Some x). cbv beta iota.
    rewrite (Hparse n ("}" +++ rest)); [reflexivity | lia | reflexivity].
  - change (map member_text ((k, v) :: q :: r'))
      with (member_text (k, v) :: member_text q :: map member_text r') in *.
    rewrite concat_cons2 in *. rewrite !length_append in Hn.
    change (String.length ",") with 1%nat in Hn.
    rewrite !append_assoc. rewrite member_text_app.
    change (expect dquote (String dquote ?x)) with (Some x). cbv beta iota.
    rewrite lex_string_quote_body. cbv beta iota.
    change (expect ":" (String ":" ?x)) with (Some x). cbv beta iota.
    rewrite (Hparse n ("," +++
              String.concat "," (member_text q :: map member_text r') +++ "}" +++ rest));
      [|lia|reflexivity].
    change (expect "," ("," +++ String.concat "," (member_text q :: map member_text r')
                            +++ "}" +++ rest))
      with (Some (String.concat "," (member_text q :: map member_text r') +++ "}" +++ rest)).
    change (member_text q :: map member_text r') with (map member_text (q :: r')) in *.
    cbv beta iota.
    rewrite IH; [reflexivity | discriminate | exact Hsr | lia].
Qed.

Lemma starts_value_append (a b : string) :
  starts_value a = true -> starts_value (a +++ b) = true.
Proof. destruct a; simpl; [discriminate | intro H; exact H]. Qed.

Lemma starts_value_concat (t : string) (ts : list string) :
  starts_value t = true -> starts_value (String.concat "," (t :: ts)) = true.
Proof.
  intro H. destruct ts as [|u us]; [exact H|].
  rewrite concat_cons2. apply starts_value_append. exact H.
Qed.

Lemma item_text_array (xs : list value) :
  item_text (VArr xs) = "[" +++ String.concat "," (map item_text xs) +++ "]".
Proof. reflexivity. Qed.

Lemma flat_map_members (ps : list (string * value)) :
  forallb (fun p => utf8_valid (fst p) && json_safe (snd p)) ps = true ->
  flat_map (fun p => match JSON_stringify (snd p) with
                     | Some t => [JSON_quote (fst p) +++ ":" +++ t]
                     | None => []
                     end) ps
  = map member_text ps.
Proof.
  induction ps as [|p r IH]; intro H; [reflexivity|].
  cbn [flat_map map forallb] in *.
  apply andb_true_iff in H. destruct H as [Hp Hr].
  apply andb_true_iff in Hp. destruct Hp as [_ Hv].
  rewrite (json_safe_stringify _ Hv), (IH Hr). reflexivity.
Qed.

Lemma item_text_object (ps : list (string * value)) :
  forallb (fun p => utf8_valid (fst p) && json_safe (snd p)) ps = true ->
  item_text (VObj ps) = "{" +++ String.concat "," (map member_text ps) +++ "}".
Proof.
  intro H. rewrite <- (flat_map_members ps H). reflexivity.
Qed.

Lemma parses_back_array (xs : list value) :
  Forall (fun x => json_safe x = true -> parses_back x) xs ->
  forallb json_safe xs = true ->
  parses_back (VArr xs).
Proof.
  intros Hall Hsafe. split; [reflexivity|].
  intros n rest Hn Hrest. rewrite item_text_array in *.
  cbn [append] in *. simpl String.length in Hn. rewrite length_append in Hn.
  change (String.length "]") with 1%nat in Hn.
  destruct n as [|n]; [lia|].
  rewrite parse_value_array, append_assoc.
  destruct xs as [|x r].
  - reflexivity.
  - assert (Hhead : starts_value (String.concat "," (map item_text (x :: r))) = true).
    { simpl map. apply starts_value_concat.
      simpl in Hsafe. apply andb_true_iff in Hsafe. destruct Hsafe as [Hx _].
      inversion Hall as [|? ? Px _]; subst. exact (proj1 (Px Hx)). }
    destruct (expect_value_head _ ("]" +++ rest) Hhead) as [He _].
    rewrite He, parse_elements_back;
      [reflexivity | discriminate | exact Hall | exact Hsafe | lia].
Qed.

Lemma parses_back_object (ps : list (string * value)) :
  Forall (fun p => json_safe (snd p) = true -> parses_back (snd p)) ps ->
  forallb (fun p => utf8_valid (fst p) && json_safe (snd p)) ps = true ->
  props_ordered (map fst ps) = true ->
  parses_back (VObj ps).
Proof.
  intros Hall Hsafe Hord. split; [reflexivity|].
  intros n rest Hn Hrest. rewrite (item_text_object ps Hsafe) in *.
  cbn [append] in *. simpl String.length in Hn. rewrite length_append in Hn.
  change (String.length "}") with 1%nat in Hn.
  destruct n as [|n]; [lia|].
  rewrite parse_value_object, append_assoc.
  destruct ps as [|[k v] r].
  - reflexivity.
  - assert (Hhead : starts_value (String.concat "," (map member_text ((k, v) :: r))) = true).
    { simpl map. apply starts_value_concat. reflexivity. }
    destruct (expect_value_head _ ("}" +++ rest) Hhead) as [_ He].
    rewrite He, parse_members_back;
      [|discriminate | exact Hall | exact Hsafe | lia].
    rewrite (build_object_ordered _ Hord). reflexivity.
Qed.

(** Every JSON-safe value is read back from its own text. *)
Lemma json_safe_parses_back (v : value) : json_safe v = true -> parses_back v.
Proof.
  induction v as [| |b|n|s|t|k bs|xs IH|ps IH] using value_induction;
    simpl; intro H; try discriminate H.
  - apply parses_back_null.
  - apply parses_back_bool.
  - destruct n as [z|m e| |]; try discriminate H.
    + apply parses_back_number; [reflexivity|].
      intros rest Hrest. apply lex_number_integer. exact Hrest.
    + apply andb_true_iff in H. destruct H as [He Hm].
      apply Z.ltb_lt in He. apply negb_true_iff, Z.eqb_neq in Hm.
      apply parses_back_number; [reflexivity|].
      intros rest Hrest. apply lex_number_decimal; assumption.
  - apply parses_back_string.
  - apply parses_back_array; assumption.
  - apply andb_true_iff in H. destruct H as [Hs Ho].
    apply parses_back_object; assumption.
Qed.

Lemma item_text_nonempty (v : value) : json_safe v = true -> item_text v <> "".
Proof.
  intro H. destruct (json_safe_parses_back v H) as [Hs _].
  destruct (item_text v); [discriminate Hs | discriminate].
Qed.

Lemma JSON_parse_stringify (v : value) :
  json_safe v = true -> JSON_parse (item_text v) = Some v.
Proof.
  intro H. destruct (json_safe_parses_back v H) as [_ Hp].
  unfold JSON_parse.
  rewrite <- (append_nil_r (item_text v)) at 2.
  rewrite Hp; [reflexivity | lia | reflexivity].
Qed.

(** *** Well-formed text survives the trip through a [Buffer] *)

Lemma utf8_valid_decode (s : string) : utf8_valid s = true -> utf8_decode s = s.
Proof.
  induction s as [s IH] using string_length_induction.
  destruct s as [|b0 r0]; [reflexivity|].
  cbn [utf8_valid utf8_decode]. destruct (classify b0).
  - intro H. rewrite (IH r0); [reflexivity | simpl; lia | exact H].
  - destruct r0 as [|b1 r1]; [discriminate|]. intro H.
    apply andb_true_iff in H. destruct H as [H1 H].
    rewrite H1, (IH r1); [reflexivity | simpl; lia | exact H].
  - destruct r0 as [|b1 [|b2 r2]]; try discriminate. intro H.
    apply andb_true_iff in H. destruct H as [H12 H].
    apply andb_true_iff in H12. destruct H12 as [H1 H2].
    rewrite H1, H2, (IH r2); [reflexivity | simpl; lia | exact H].
  - destruct r0 as [|b1 [|b2 [|b3 r3]]]; try discriminate. intro H.
    apply andb_true_iff in H. destruct H as [H123 H].
    apply andb_true_iff in H123. destruct H123 as [H12 H3].
    apply andb_true_iff in H12. destruct H12 as [H1 H2].
    rewrite H1, H2, H3, (IH r3); [reflexivity | simpl; lia | exact H].
  - discriminate.
Qed.

Lemma utf8_valid_append (a b : string) :
  utf8_valid a = true -> utf8_valid b = true -> utf8_valid (a +++ b) = true.
Proof.
  intros Ha Hb. revert Ha.
  induction a as [a IH] using string_length_induction.
  destruct a as [|b0 r0]; [intros _; exact Hb|].
  cbn [append utf8_valid]. destruct (classify b0).
  - intro H. apply IH; [simpl; lia | exact H].
  - destruct r0 as [|b1 r1]; [discriminate|]. cbn [append]. intro H.
    apply andb_true_iff in H. destruct H as [H1 H].
    rewrite H1, (IH r1); [reflexivity | simpl; lia | exact H].
  - destruct r0 as [|b1 [|b2 r2]]; try discriminate. cbn [append]. intro H.
    apply andb_true_iff in H. destruct H as [H12 H].
    rewrite H12, (IH r2); [reflexivity | simpl; lia | exact H].
  - destruct r0 as [|b1 [|b2 [|b3 r3]]]; try discriminate. cbn [append]. intro H.
    apply andb_true_iff in H. destruct H as [H123 H].
    rewrite H123, (IH r3); [reflexivity | simpl; lia | exact H].
  - discriminate.
Qed.

Lemma escape_char_high (c : ascii) : high c = true -> escape_char c = str1 c.
Proof.
  destruct c as [[] [] [] [] [] [] [] []]; intro H;
    try discriminate H; reflexivity.
Qed.

Lemma escape_char_single_valid (c : ascii) :
  classify c = Single -> utf8_valid (escape_char c) = true.
Proof.
  destruct c as [[] [] [] [] [] [] [] []]; intro H;
    try discriminate H; reflexivity.
Qed.

Lemma within_high (lo hi : N) (c : ascii) :
  (128 <=? lo)%N = true -> within lo hi c = true -> high c = true.
Proof.
  unfold within, high. intros Hlo H.
  apply andb_true_iff in H. destruct H as [H _].
  apply N.leb_le in Hlo, H. apply N.leb_le. lia.
Qed.

Lemma is_cont_high (c : ascii) : is_cont c = true -> high c = true.
Proof. apply within_high. reflexivity. Qed.

Lemma classify_high (c : ascii) : classify c <> Single -> high c = true.
Proof.
  unfold classify, high. destruct (N.leb_spec (code c) 127) as [Hle|Hgt].
  - intro Hs. exfalso. apply Hs. reflexivity.
  - intros _. apply N.leb_le. lia.
Qed.

Lemma classify_bounds (c : ascii) (lo hi : N) :
  classify c = L3 lo hi \/ classify c = L4 lo hi -> (128 <=? lo)%N = true.
Proof.
  unfold classify.
  destruct (code c <=? 127)%N; [intros [H|H]; discriminate H|].
  destruct ((194 <=? code c)%N && (code c <=? 223)%N); [intros [H|H]; discriminate H|].
  destruct ((224 <=? code c)%N && (code c <=? 239)%N).
  { intros [H|H]; [|discriminate H]. injection H as <- _.
    destruct (code c =? 224)%N; reflexivity. }
  destruct ((240 <=? code c)%N && (code c <=? 244)%N); [|intros [H|H]; discriminate H].
  intros [H|H]; [discriminate H|]. injection H as <- _.
  destruct (code c =? 240)%N; reflexivity.
Qed.

Lemma utf8_valid_quote_body (s : string) :
  utf8_valid s = true -> utf8_valid (quote_body s) = true.
Proof.
  induction s as [s IH] using string_length_induction.
  destruct s as [|b0 r0]; [reflexivity|].
  cbn [utf8_valid quote_body]. destruct (classify b0) eqn:Hc.
  - intro H. apply utf8_valid_append.
    + apply escape_char_single_valid. exact Hc.
    + apply IH; [simpl; lia | exact H].
  - destruct r0 as [|b1 r1]; [discriminate|]. intro H.
    apply andb_true_iff in H. destruct H as [H1 H].
    cbn [quote_body].
    rewrite (escape_char_high b0), (escape_char_high b1 (is_cont_high _ H1));
      [|apply classify_high; congruence].
    cbn [str1 append utf8_valid]. rewrite Hc, H1.
    apply IH; [simpl; lia | exact H].
  - destruct r0 as [|b1 [|b2 r2]]; try discriminate. intro H.
    apply andb_true_iff in H. destruct H as [H12 H].
    apply andb_true_iff in H12. destruct H12 as [H1 H2].
    cbn [quote_body].
    rewrite (escape_char_high b0), (escape_char_high b2 (is_cont_high _ H2)),
      (escape_char_high b1
         (within_high lo hi b1 (classify_bounds b0 lo hi (or_introl Hc)) H1));
      [|apply classify_high; congruence].
    cbn [str1 append utf8_valid]. rewrite Hc, H1, H2.
    apply IH; [simpl; lia | exact H].
  - destruct r0 as [|b1 [|b2 [|b3 r3]]]; try discriminate. intro H.
    apply andb_true_iff in H. destruct H as [H123 H].
    apply andb_true_iff in H123. destruct H123 as [H12 H3].
    apply andb_true_iff in H12. destruct H12 as [H1 H2].
    cbn [quote_body].
    rewrite (escape_char_high b0), (escape_char_high b2 (is_cont_high _ H2)),
      (escape_char_high b3 (is_cont_high _ H3)),
      (escape_char_high b1
         (within_high lo hi b1 (classify_bounds b0 lo hi (or_intror Hc)) H1));
      [|apply classify_high; congruence].
    cbn [str1 append utf8_valid]. rewrite Hc, H1, H2, H3.
    apply IH; [simpl; lia | exact H].
  - discriminate.
Qed.

Lemma utf8_valid_quote (s : string) :
  utf8_valid s = true -> utf8_valid (JSON_quote s) = true.
Proof.
  intro H. unfold JSON_quote.
  change (String dquote (quote_body s +++ str1 dquote))
    with (str1 dquote +++ quote_body s +++ str1 dquote).
  apply utf8_valid_append; [reflexivity|].
  apply utf8_valid_append; [|reflexivity].
  apply utf8_valid_quote_body. exact H.
Qed.

Lemma utf8_valid_string_of_uint (u : uint) :
  utf8_valid (NilEmpty.string_of_uint u) = true.
Proof. induction u; simpl; try exact IHu; reflexivity. Qed.

Lemma utf8_valid_repeat_zero (n : nat) : utf8_valid (repeat_char "0" n) = true.
Proof. induction n as [|n IH]; [reflexivity | exact IH]. Qed.

Lemma utf8_valid_layout (u : uint) (n : Z) : utf8_valid (layout u n) = true.
Proof.
  unfold layout, digit_text, digits.
  repeat match goal with
         | |- context [if ?b then _ else _] => destruct b
         end;
    repeat first
      [ apply utf8_valid_string_of_uint
      | apply utf8_valid_repeat_zero
      | reflexivity
      | apply utf8_valid_append ].
Qed.

Lemma utf8_valid_concat (ts : list string) :
  forallb utf8_valid ts = true -> utf8_valid (String.concat "," ts) = true.
Proof.
  induction ts as [|t r IH]; [reflexivity|]. simpl forallb. intro H.
  apply andb_true_iff in H. destruct H as [Ht Hr].
  destruct r as [|u r']; [exact Ht|].
  rewrite concat_cons2. apply utf8_valid_append; [exact Ht|].
  apply utf8_valid_append; [reflexivity | apply IH; exact Hr].
Qed.

Lemma utf8_valid_item_text (v : value) :
  json_safe v = true -> utf8_valid (item_text v) = true.
Proof.
  induction v as [| |b|n|s|t|k bs|xs IH|ps IH] using value_induction;
    simpl json_safe; intro H; try discriminate H.
  - reflexivity.
  - destruct b; reflexivity.
  - destruct n as [z|m e| |]; try discriminate H.
    + change (item_text (VNum (NInt z))) with (Number_toString (NInt z)).
      unfold Number_toString. apply utf8_valid_append.
      * unfold sign_text. destruct (z <? 0); reflexivity.
      * apply utf8_valid_layout.
    + change (item_text (VNum (NDec m e))) with (Number_toString (NDec m e)).
      unfold Number_toString. apply utf8_valid_append.
      * unfold sign_text. destruct (m <? 0); reflexivity.
      * apply utf8_valid_layout.
  - apply (utf8_valid_quote s H).
  - rewrite item_text_array.
    apply utf8_valid_append; [reflexivity|].
    apply utf8_valid_append; [|reflexivity].
    apply utf8_valid_concat.
    induction IH as [|x r Hx _ IHr]; [reflexivity|].
    simpl in H |- *. apply andb_true_iff in H. destruct H as [Hsx Hsr].
    rewrite (Hx Hsx), (IHr Hsr). reflexivity.
  - apply andb_true_iff in H. destruct H as [Hs _].
    rewrite (item_text_object ps Hs).
    apply utf8_valid_append; [reflexivity|].
    apply utf8_valid_append; [|reflexivity].
    apply utf8_valid_concat.
    induction IH as [|p r Hp _ IHr]; [reflexivity|].
    cbn [map forallb] in Hs |- *.
    apply andb_true_iff in Hs. destruct Hs as [Hsp Hsr].
    apply andb_true_iff in Hsp. destruct Hsp as [Hk Hv].
    rewrite (IHr Hsr), andb_true_r. unfold member_text.
    apply utf8_valid_append; [apply utf8_valid_quote; exact Hk|].
    apply utf8_valid_append; [reflexivity | apply Hp; exact Hv].
Qed.

Lemma Buffer_round_trip (text : string) :
  utf8_valid text = true -> Buffer_toString (Buffer_from text) = text.
Proof.
  intro H. unfold Buffer_toString, Buffer_from.
  rewrite string_of_list_byte_of_string. apply utf8_valid_decode. exact H.
Qed.

Lemma normalizePayload_json_safe (v : value) :
  json_safe v = true -> normalizePayload v = v.
Proof.
  induction v as [| |b|n|s|t|k bs|xs IH|ps IH] using value_induction;
    simpl; intro H; try discriminate H; try reflexivity.
  - f_equal. induction IH as [|x r Hx _ IHr]; [reflexivity|].
    simpl in H |- *. apply andb_true_iff in H. destruct H as [Hsx Hsr].
    rewrite (Hx Hsx), (IHr Hsr). reflexivity.
  - f_equal. apply andb_true_iff in H. destruct H as [Hs _].
    induction IH as [|p r Hp _ IHr]; [reflexivity|].
    cbn [map forallb] in Hs |- *.
    apply andb_true_iff in Hs. destruct Hs as [Hsp Hsr].
    apply andb_true_iff in Hsp. destruct Hsp as [_ Hv].
    rewrite (Hp Hv), (IHr Hsr). destruct p; reflexivity.
Qed.

Lemma utf8_valid_Number_toString_integer (z : Z) :
  utf8_valid (Number_toString (NInt z)) = true.
Proof.
  unfold Number_toString. apply utf8_valid_append.
  - unfold sign_text. destruct (z <? 0); reflexivity.
  - apply utf8_valid_layout.
Qed.

(** *** What the decoder returns is well-formed *)

Lemma utf8_decode_valid (s : string) : utf8_valid (utf8_decode s) = true.
Proof.
  induction s as [s IH] using string_length_induction.
  assert (Hrep : forall t, (String.length t < String.length s)%nat ->
                           utf8_valid (replacement +++ utf8_decode t) = true).
  { intros t Ht. apply utf8_valid_append; [reflexivity | apply IH; exact Ht]. }
  destruct s as [|b0 r0]; [reflexivity|].
  cbn [utf8_decode]. destruct (classify b0) eqn:Hc.
  - cbn [utf8_valid]. rewrite Hc. apply IH. simpl. lia.
  - destruct r0 as [|b1 r1]; [reflexivity|].
    destruct (is_cont b1) eqn:H1; [|apply Hrep; simpl; lia].
    cbn [utf8_valid]. rewrite Hc, H1. apply IH. simpl. lia.
  - destruct r0 as [|b1 r1]; [reflexivity|].
    destruct (within lo hi b1) eqn:H1; [|apply Hrep; simpl; lia].
    destruct r1 as [|b2 r2]; [reflexivity|].
    destruct (is_cont b2) eqn:H2; [|apply Hrep; simpl; lia].
    cbn [utf8_valid]. rewrite Hc, H1, H2. apply IH. simpl. lia.
  - destruct r0 as [|b1 r1]; [reflexivity|].
    destruct (within lo hi b1) eqn:H1; [|apply Hrep; simpl; lia].
    destruct r1 as [|b2 r2]; [reflexivity|].
    destruct (is_cont b2) eqn:H2; [|apply Hrep; simpl; lia].
    destruct r2 as [|b3 r3]; [reflexivity|].
    destruct (is_cont b3) eqn:H3; [|apply Hrep; simpl; lia].
    cbn [utf8_valid]. rewrite Hc, H1, H2, H3. apply IH. simpl. lia.
  - apply Hrep. simpl. lia.
Qed.

(** ** The fuel of [JSON_parse] is enough *)

Lemma skip_ws_length (s : string) :
  (String.length (skip_ws s) <= String.length s)%nat.
Proof.
  induction s as [|c r IH]; simpl; [lia|].
  destruct (is_ws c); simpl; lia.
Qed.

Lemma expect_length (c : ascii) (s r : string) :
  expect c s = Some r -> (String.length r < String.length s)%nat.
Proof.
  unfold expect. pose proof (skip_ws_length s) as Hs.
  destruct (skip_ws s) as [|c' r']; [discriminate|].
  destruct (Ascii.eqb c' c); [|discriminate].
  intro H. injection H as <-. simpl in Hs. lia.
Qed.

Lemma prepend_length (p t r : string) (o : option (string * string)) (n : nat) :
  prepend p o = Some (t, r) ->
  (forall t' r', o = Some (t', r') -> (String.length r' < n)%nat) ->
  (String.length r < n)%nat.
Proof.
  destruct o as [[t' r']|]; simpl; [|discriminate].
  intros H Hn. injection H as _ <-. apply (Hn t' r'). reflexivity.
Qed.

Lemma lex_string_length (s t r : string) :
  lex_string s = Some (t, r) -> (String.length r < String.length s)%nat.
Proof.
  revert t r. induction s as [s IH] using string_length_induction.
  intros t r. destruct s as [|c s1]; [discriminate|].
  cbn [lex_string].
  destruct (Ascii.eqb c dquote).
  { intro H. injection H as _ <-. simpl. lia. }
  destruct (Ascii.eqb c backslash).
  - destruct s1 as [|e s2]; [discriminate|].
    destruct (simple_escape e).
    + intro H. apply (prepend_length _ _ _ _ _ H).
      intros t' r' Hl. apply IH in Hl; simpl in *; lia.
    + destruct (Ascii.eqb e "u"); [|discriminate].
      destruct s2 as [|h1 [|h2 [|h3 [|h4 s3]]]]; try discriminate.
      destruct (hex4 h1 h2 h3 h4); [|discriminate].
      destruct (if is_high_surrogate n then low_escape s3 else None).
      * destruct s3 as [|g0 [|g1 [|g2 [|g3 [|g4 [|g5 s4]]]]]];
          intro H; apply (prepend_length _ _ _ _ _ H);
          intros t' r' Hl; apply IH in Hl; simpl in *; lia.
      * intro H. apply (prepend_length _ _ _ _ _ H).
        intros t' r' Hl. apply IH in Hl; simpl in *; lia.
  - destruct (code c <? 32)%N; [discriminate|].
    intro H. apply (prepend_length _ _ _ _ _ H).
    intros t' r' Hl. apply IH in Hl; simpl in *; lia.
Qed.

Lemma lex_digits_length (s : string) :
  (String.length (snd (lex_digits s)) <= String.length s)%nat.
Proof.
  induction s as [|c r IH]; simpl; [lia|].
  destruct (digit_of c); simpl; [|lia].
  destruct (lex_digits r); simpl in *. lia.
Qed.

Lemma lex_int_length (s r : string) (u : uint) :
  lex_int s = Some (u, r) -> (String.length r < String.length s)%nat.
Proof.
  unfold lex_int. destruct s as [|c s1]; [discriminate|].
  destruct (Ascii.eqb c "0").
  { intro H. injection H as _ <-. simpl. lia. }
  destruct (is_digit c) eqn:Hd; [|discriminate].
  intro H. injection H as H.
  pose proof (digit_of_is_digit c) as Hc.
  pose proof (lex_digits_length s1) as Hl.
  simpl in H. destruct (digit_of c); [|congruence].
  destruct (lex_digits s1). injection H as _ <-. simpl in *. lia.
Qed.

Lemma lex_frac_length (s r : string) (f : option uint) :
  lex_frac s = Some (f, r) -> (String.length r <= String.length s)%nat.
Proof.
  unfold lex_frac. destruct s as [|c s1].
  { intro H. injection H as _ <-. lia. }
  destruct (Ascii.eqb c ".").
  - pose proof (lex_digits_length s1) as Hl.
    destruct (lex_digits s1) as [u r']. simpl in Hl.
    destruct u; intro H; try discriminate H; injection H as _ <-; simpl; lia.
  - intro H. injection H as _ <-. lia.
Qed.

Lemma lex_exp_length (s r : string) (x : option Z) :
  lex_exp s = Some (x, r) -> (String.length r <= String.length s)%nat.
Proof.
  unfold lex_exp. destruct s as [|c s1].
  { intro H. injection H as _ <-. lia. }
  destruct (Ascii.eqb c "e" || Ascii.eqb c "E").
  - assert (Hsign : forall neg r',
              (match s1 with
               | String g r'' =>
                   if Ascii.eqb g "-" then (true, r'')
                   else if Ascii.eqb g "+" then (false, r'')
                   else (false, s1)
               | EmptyString => (false, s1)
               end) = (neg, r') ->
              (String.length r' <= String.length s1)%nat).
    { intros neg r'. destruct s1 as [|g r''].
      - intro H. injection H as _ <-. lia.
      - destruct (Ascii.eqb g "-"); [|destruct (Ascii.eqb g "+")];
          intro H; injection H as _ <-; simpl; lia. }
    destruct (match s1 with
              | String g r'' =>
                  if Ascii.eqb g "-" then (true, r'')
                  else if Ascii.eqb g "+" then (false, r'')
                  else (false, s1)
              | EmptyString => (false, s1)
              end) as [neg r'] eqn:Hs.
    specialize (Hsign neg r' eq_refl).
    pose proof (lex_digits_length r') as Hl.
    destruct (lex_digits r') as [u r0]. simpl in Hl.
    destruct u; intro H; try discriminate H; injection H as _ <-; simpl; lia.
  - intro H. injection H as _ <-. lia.
Qed.

Lemma lex_unsigned_length (neg : bool) (s r : string) (x : number) :
  lex_unsigned neg s = Some (x, r) -> (String.length r < String.length s)%nat.
Proof.
  unfold lex_unsigned.
  destruct (lex_int s) as [[u s1]|] eqn:Hi; [|discriminate].
  destruct (lex_frac s1) as [[f s2]|] eqn:Hf; [|discriminate].
  destruct (lex_exp s2) as [[e s3]|] eqn:He; [|discriminate].
  intro H. injection H as _ <-.
  apply lex_int_length in Hi. apply lex_frac_length in Hf.
  apply lex_exp_length in He. lia.
Qed.

Lemma lex_number_length (s r : string) (x : number) :
  lex_number s = Some (x, r) -> (String.length r < String.length s)%nat.
Proof.
  unfold lex_number. destruct s as [|c s1]; [discriminate|].
  destruct (Ascii.eqb c "-"); intro H; apply lex_unsigned_length in H;
    simpl in *; lia.
Qed.

Lemma strip_prefix_length (p s r : string) :
  strip_prefix p s = Some r ->
  String.length s = (String.length p + String.length r)%nat.
Proof.
  revert s. induction p as [|a p IH]; intros s; simpl.
  - intro H. injection H as <-. reflexivity.
  - destruct s as [|b s']; [discriminate|].
    destruct (Ascii.eqb a b); [|discriminate].
    intro H. apply IH in H. simpl. lia.
Qed.

Lemma literal_length (text : string) (v w : value) (s r : string) :
  text <> "" ->
  literal text v s = Some (w, r) -> (String.length r < String.length s)%nat.
Proof.
  unfold literal. intros Hne.
  destruct (strip_prefix text s) eqn:Hp; [|discriminate].
  intro H. injection H as _ <-. apply strip_prefix_length in Hp.
  destruct text; [congruence|]. simpl in Hp. lia.
Qed.

Lemma parse_value_step (n : nat) (s : string) :
  parse_value (S n) s
  = match skip_ws s with
    | EmptyString => None
    | String c r =>
        if Ascii.eqb c "[" then
          match expect "]" r with
          | Some r' => Some (VArr [], r')
          | None =>
              match parse_elements n r with
              | Some (xs, rest) => Some (VArr xs, rest)
              | None => None
              end
          end
        else if Ascii.eqb c "{" then
          match expect "}" r with
          | Some r' => Some (VObj [], r')
          | None =>
              match parse_members n r with
              | Some (ms, rest) => Some (build_object ms, rest)
              | None => None
              end
          end
        else if Ascii.eqb c dquote then
          match lex_string r with
          | Some (t, rest) => Some (VStr t, rest)
          | None => None
          end
        else if Ascii.eqb c "t" then literal "true" (VBool true) (String c r)
        else if Ascii.eqb c "f" then literal "false" (VBool false) (String c r)
        else if Ascii.eqb c "n" then literal "null" VNull (String c r)
        else
          match lex_number (String c r) with
          | Some (x, rest) => Some (VNum x, rest)
          | None => None
          end
    end.
Proof. reflexivity. Qed.

Lemma value_fuel_free_step (n : nat) :
  elements_fuel_free n -> members_fuel_free n -> value_fuel_free (S n).
Proof.
  intros HE HM s v r. rewrite parse_value_step.
  pose proof (skip_ws_length s) as Hws.
  destruct (skip_ws s) as [|c r0] eqn:Hs; [discriminate|]. simpl in Hws.
  destruct (Ascii.eqb c "[") eqn:E1.
  { destruct (expect "]" r0) as [r'|] eqn:E2.
    - intro H. injection H as <- <-. pose proof (expect_length _ _ _ E2) as Hl.
      split; [lia|]. intros m Hm. destruct m as [|m]; [lia|].
      rewrite parse_value_step, Hs, E1, E2. reflexivity.
    - destruct (parse_elements n r0) as [[xs rest]|] eqn:E3; [|discriminate].
      intro H. injection H as <- <-.
      destruct (HE _ _ _ E3) as [Hlen Hfuel].
      split; [lia|]. intros m Hm. destruct m as [|m]; [lia|].
      rewrite parse_value_step, Hs, E1, E2, Hfuel; [reflexivity | lia]. }
  destruct (Ascii.eqb c "{") eqn:E2.
  { destruct (expect "}" r0) as [r'|] eqn:E3.
    - intro H. injection H as <- <-. pose proof (expect_length _ _ _ E3) as Hl.
      split; [lia|]. intros m Hm. destruct m as [|m]; [lia|].
      rewrite parse_value_step, Hs, E1, E2, E3. reflexivity.
    - destruct (parse_members n r0) as [[ms rest]|] eqn:E4; [|discriminate].
      intro H. injection H as <- <-.
      destruct (HM _ _ _ E4) as [Hlen Hfuel].
      split; [lia|]. intros m Hm. destruct m as [|m]; [lia|].
      rewrite parse_value_step, Hs, E1, E2, E3, Hfuel; [reflexivity | lia]. }
  assert (Hrest : forall o : option (value * string),
            (forall w r', o = Some (w, r') ->
                          (String.length r' < String.length (String c r0))%nat) ->
            (forall m, parse_value (S m) s = o) ->
            o = Some (v, r) ->
            (String.length r < String.length s)%nat
            /\ forall m, (2 * (String.length s - String.length r) - 1 <= m)%nat ->
                         parse_value m s = Some (v, r)).
  { intros o Hlen Hsame Ho. specialize (Hlen _ _ Ho). simpl in Hlen.
    split; [lia|]. intros m Hm. destruct m as [|m]; [lia|].
    rewrite Hsame. exact Ho. }
  destruct (Ascii.eqb c dquote) eqn:E3.
  { apply Hrest.
    - intros w r'. destruct (lex_string r0) as [[t rest]|] eqn:El; [|discriminate].
      intro H. injection H as _ <-. apply lex_string_length in El. simpl. lia.
    - intro m. rewrite parse_value_step, Hs, E1, E2, E3. reflexivity. }
  destruct (Ascii.eqb c "t") eqn:E4.
  { apply Hrest.
    - intros w r' H. apply literal_length in H; [exact H | discriminate].
    - intro m. rewrite parse_value_step, Hs, E1, E2, E3, E4. reflexivity. }
  destruct (Ascii.eqb c "f") eqn:E5.
  { apply Hrest.
    - intros w r' H. apply literal_length in H; [exact H | discriminate].
    - intro m. rewrite parse_value_step, Hs, E1, E2, E3, E4, E5. reflexivity. }
  destruct (Ascii.eqb c "n") eqn:E6.
  { apply Hrest.
    - intros w r' H. apply literal_length in H; [exact H | discriminate].
    - intro m. rewrite parse_value_step, Hs, E1, E2, E3, E4, E5, E6. reflexivity. }
  apply Hrest.
  - intros w r'. destruct (lex_number (String c r0)) as [[x rest]|] eqn:El; [|discriminate].
    intro H. injection H as _ <-. apply lex_number_length in El. exact El.
  - intro m. rewrite parse_value_step, Hs, E1, E2, E3, E4, E5, E6. reflexivity.
Qed.

Lemma elements_fuel_free_step (n : nat) :
  value_fuel_free n -> elements_fuel_free n -> elements_fuel_free (S n).
Proof.
  intros HV HE s vs r. rewrite parse_elements_step.
  destruct (parse_value n s) as [[v r1]|] eqn:Ev; [|discriminate].
  destruct (HV _ _ _ Ev) as [Hl1 Hf1].
  destruct (expect "," r1) as [r2|] eqn:Ec.
  - destruct (parse_elements n r2) as [[ws rest]|] eqn:Ee; [|discriminate].
    intro H. injection H as <- <-.
    destruct (HE _ _ _ Ee) as [Hl2 Hf2]. pose proof (expect_length _ _ _ Ec) as Hl3.
    split; [lia|]. intros m Hm. destruct m as [|m]; [lia|].
    rewrite parse_elements_step, Hf1, Ec, Hf2; [reflexivity | lia | lia].
  - destruct (expect "]" r1) as [r2|] eqn:Eb; [|discriminate].
    intro H. injection H as <- <-. pose proof (expect_length _ _ _ Eb) as Hl2.
    split; [lia|]. intros m Hm. destruct m as [|m]; [lia|].
    rewrite parse_elements_step, Hf1, Ec, Eb; [reflexivity | lia].
Qed.

Lemma members_fuel_free_step (n : nat) :
  value_fuel_free n -> members_fuel_free n -> members_fuel_free (S n).
Proof.
  intros HV HM s ms r. rewrite parse_members_step.
  destruct (expect dquote s) as [r0|] eqn:Eq; [|discriminate].
  destruct (lex_string r0) as [[k r1]|] eqn:Ek; [|discriminate].
  destruct (expect ":" r1) as [r2|] eqn:Ecol; [|discriminate].
  destruct (parse_value n r2) as [[v r3]|] eqn:Ev; [|discriminate].
  destruct (HV _ _ _ Ev) as [Hl1 Hf1].
  pose proof (expect_length _ _ _ Eq) as Hq.
  pose proof (lex_string_length _ _ _ Ek) as Hk.
  pose proof (expect_length _ _ _ Ecol) as Hcol.
  destruct (expect "," r3) as [r4|] eqn:Ec.
  - destruct (parse_members n r4) as [[ws rest]|] eqn:Ee; [|discriminate].
    intro H. injection H as <- <-.
    destruct (HM _ _ _ Ee) as [Hl2 Hf2]. pose proof (expect_length _ _ _ Ec) as Hl3.
    split; [lia|]. intros m Hm. destruct m as [|m]; [lia|].
    rewrite parse_members_step, Eq, Ek, Ecol, Hf1, Ec, Hf2;
      [reflexivity | lia | lia].
  - destruct (expect "}" r3) as [r4|] eqn:Eb; [|discriminate].
    intro H. injection H as <- <-. pose proof (expect_length _ _ _ Eb) as Hl2.
    split; [lia|]. intros m Hm. destruct m as [|m]; [lia|].
    rewrite parse_members_step, Eq, Ek, Ecol, Hf1, Ec, Eb; [reflexivity | lia].
Qed.

Lemma parse_fuel_free (n : nat) :
  value_fuel_free n /\ elements_fuel_free n /\ members_fuel_free n.
Proof.
  induction n as [|n (HV & HE & HM)].
  - split; [|split]; intros s x r H; discriminate H.
  - split; [|split].
    + apply value_fuel_free_step; assumption.
    + apply elements_fuel_free_step; assumption.
    + apply members_fuel_free_step; assumption.
Qed.

(** [JSON_parse] rejects a text only if no amount of fuel would parse it:
    its [None] is a syntax error of the text. *)
Lemma JSON_parse_complete (n : nat) (text : string) (v : value) (rest : string) :
  parse_value n text = Some (v, rest) ->
  skip_ws rest = "" ->
  JSON_parse text = Some v.
Proof.
  intros Hp Hrest. destruct (parse_fuel_free n) as [HV _].
  destruct (HV _ _ _ Hp) as [_ Hfuel].
  unfold JSON_parse. rewrite Hfuel; [|lia]. rewrite Hrest. reflexivity.
Qed.

(** ** What [JSON.parse] returns *)

Lemma set_prop_json_value (k : string) (v : value) (ps : list (string * value)) :
  json_value v = true ->
  forallb (fun p => json_value (snd p)) ps = true ->
  forallb (fun p => json_value (snd p)) (set_prop k v ps) = true.
Proof.
  intros Hv. induction ps as [|[k' v'] r IH]; simpl; intro H.
  - rewrite Hv. reflexivity.
  - apply andb_true_iff in H. destruct H as [H1 H2].
    destruct (String.eqb k k'); [simpl; rewrite Hv; exact H2|].
    destruct (precedes k k'); simpl.
    + rewrite Hv, H1. exact H2.
    + rewrite H1. apply IH. exact H2.
Qed.

Lemma build_object_json_value (ms : list (string * value)) :
  forallb (fun p => json_value (snd p)) ms = true ->
  json_value (build_object ms) = true.
Proof.
  unfold build_object. cbn [json_value].
  assert (G : forall acc,
            forallb (fun p => json_value (snd p)) acc = true ->
            forallb (fun p => json_value (snd p)) ms = true ->
            forallb (fun p => json_value (snd p))
              (fold_left (fun acc p => set_prop (fst p) (snd p) acc) ms acc) = true).
  { induction ms as [|[k v] r IH]; intros acc Hacc H; simpl in *; [exact Hacc|].
    apply andb_true_iff in H. destruct H as [H1 H2].
    apply IH; [|exact H2]. apply set_prop_json_value; assumption. }
  apply G. reflexivity.
Qed.

Lemma parse_json_value (n : nat) :
  (forall s v r, parse_value n s = Some (v, r) -> json_value v = true)
  /\ (forall s vs r, parse_elements n s = Some (vs, r) -> forallb json_value vs = true)
  /\ (forall s ms r, parse_members n s = Some (ms, r) ->
                     forallb (fun p => json_value (snd p)) ms = true).
Proof.
  induction n as [|n (HV & HE & HM)].
  { split; [|split]; intros s x r H; discriminate H. }
  split; [|split].
  - intros s v r. rewrite parse_value_step.
    destruct (skip_ws s) as [|c r0]; [discriminate|].
    destruct (Ascii.eqb c "[").
    { destruct (expect "]" r0).
      - intro H. injection H as <- _. reflexivity.
      - destruct (parse_elements n r0) as [[xs rest]|] eqn:E; [|discriminate].
        intro H. injection H as <- _. exact (HE _ _ _ E). }
    destruct (Ascii.eqb c "{").
    { destruct (expect "}" r0).
      - intro H. injection H as <- _. reflexivity.
      - destruct (parse_members n r0) as [[ms rest]|] eqn:E; [|discriminate].
        intro H. injection H as <- _.
        apply build_object_json_value. exact (HM _ _ _ E). }
    destruct (Ascii.eqb c dquote).
    { destruct (lex_string r0) as [[t rest]|]; [|discriminate].
      intro H. injection H as <- _. reflexivity. }
    assert (Hlit : forall text w, json_value w = true ->
                     literal text w (String c r0) = Some (v, r) -> json_value v = true).
    { intros text w Hw. unfold literal.
      destruct (strip_prefix text (String c r0)); [|discriminate].
      intro H. injection H as <- _. exact Hw. }
    destruct (Ascii.eqb c "t"); [apply Hlit; reflexivity|].
    destruct (Ascii.eqb c "f"); [apply Hlit; reflexivity|].
    destruct (Ascii.eqb c "n"); [apply Hlit; reflexivity|].
    destruct (lex_number (String c r0)) as [[x rest]|]; [|discriminate].
    intro H. injection H as <- _. reflexivity.
  - intros s vs r. rewrite parse_elements_step.
    destruct (parse_value n s) as [[v r1]|] eqn:Ev; [|discriminate].
    pose proof (HV _ _ _ Ev) as Hv.
    destruct (expect "," r1) as [r2|].
    + destruct (parse_elements n r2) as [[ws rest]|] eqn:Ee; [|discriminate].
      intro H. injection H as <- _. simpl. rewrite Hv. exact (HE _ _ _ Ee).
    + destruct (expect "]" r1); [|discriminate].
      intro H. injection H as <- _. simpl. rewrite Hv. reflexivity.
  - intros s ms r. rewrite parse_members_step.
    destruct (expect dquote s) as [r0|]; [|discriminate].
    destruct (lex_string r0) as [[k r1]|]; [|discriminate].
    destruct (expect ":" r1) as [r2|]; [|discriminate].
    destruct (parse_value n r2) as [[v r3]|] eqn:Ev; [|discriminate].
    pose proof (HV _ _ _ Ev) as Hv.
    destruct (expect "," r3) as [r4|].
    + destruct (parse_members n r4) as [[ws rest]|] eqn:Ee; [|discriminate].
      intro H. injection H as <- _. simpl. rewrite Hv. exact (HM _ _ _ Ee).
    + destruct (expect "}" r3); [|discriminate].
      intro H. injection H as <- _. simpl. rewrite Hv. reflexivity.
Qed.

Lemma JSON_parse_json_value (text : string) (v : value) :
  JSON_parse text = Some v -> json_value v = true.
Proof.
  unfold JSON_parse.
  destruct (parse_value (2 * String.length text + 2) text) as [[w rest]|] eqn:E;
    [|discriminate].
  destruct (skip_ws rest); [|discriminate].
  intro H. injection H as <-.
  destruct (parse_json_value (2 * String.length text + 2)) as [HV _].
  exact (HV _ _ _ E).
Qed.

Lemma digits_item_text (n : N) :
  (n < 10 ^ 21)%N -> digits n = item_text (VNum (NInt (Z.of_N n))).
Proof.
  intro H. change (item_text (VNum (NInt (Z.of_N n))))
             with (Number_toString (NInt (Z.of_N n))).
  rewrite Number_toString_integer.
  - unfold sign_text. destruct (Z.ltb_spec (Z.of_N n) 0); [lia|].
    rewrite Zabs2N.id. reflexivity.
  - change (10 ^ 21) with (Z.of_N (10 ^ 21)). lia.
Qed.

Lemma JSON_parse_digits (n : N) :
  (n < 10 ^ 21)%N -> JSON_parse (digits n) = Some (VNum (NInt (Z.of_N n))).
Proof.
  intro H. rewrite (digits_item_text n H). apply JSON_parse_stringify. reflexivity.
Qed.

(** A number followed by a comma is not a JSON text. *)
Lemma JSON_parse_digits_comma (n : N) (rest : string) :
  (n < 10 ^ 21)%N -> JSON_parse (digits n +++ String "," rest) = None.
Proof.
  intro H. rewrite (digits_item_text n H). unfold JSON_parse.
  destruct (json_safe_parses_back (VNum (NInt (Z.of_N n))) eq_refl) as [_ Hp].
  rewrite Hp; [reflexivity | | reflexivity].
  rewrite length_append. lia.
Qed.

Lemma byte_below (b : byte) : (Byte.to_N b < 10 ^ 21)%N.
Proof.
  pose proof (Byte.to_N_bounded b) as H.
  eapply N.le_lt_trans; [exact H | reflexivity].
Qed.

Lemma digits_nonempty (n : N) : digits n <> "".
Proof.
  unfold digits. pose proof (to_uint_nonnil n) as H.
  destruct (N.to_uint n); simpl; try discriminate. exfalso. apply H. reflexivity.
Qed.

(** * Properties of the class *)

(** ** [normalizePayload] *)

Lemma map_index_props (f : value -> value) (bs : list byte) :
  (forall n, f (VNum n) = VNum n) ->
  forall i, map (fun p => (fst p, f (snd p))) (index_props i bs) = index_props i bs.
Proof.
  intros Hf. induction bs as [|b r IH]; intro i; simpl.
  - reflexivity.
  - rewrite Hf, IH. reflexivity.
Qed.

(** [normalizePayload] satisfies the equation the source is written as:
    the four lodash tests in order, each with its branch. *)
Lemma normalizePayload_source (v : value) :
  normalizePayload v =
    if isDate v then Date_getTime v
    else if isString v then v
    else if isArray v then lodash_map v normalizePayload
    else if isObject v then lodash_mapValues v normalizePayload
    else v.
Proof.
  destruct v; simpl; try reflexivity.
  rewrite map_index_props; [reflexivity | intro n; reflexivity].
Qed.

Lemma index_props_combine (bs : list byte) (i : nat) :
  index_props (N.of_nat i) bs
  = combine (map (fun j => digits (N.of_nat j)) (seq i (List.length bs)))
            (map (fun b => VNum (byte_number b)) bs).
Proof.
  revert i. induction bs as [|b r IH]; intro i; simpl; [reflexivity|].
  f_equal. rewrite <- IH. f_equal. lia.
Qed.

(** C6, as the code has it.  [normalizePayload] is the reference function
    extended to byte containers, which pass the object test and become the
    mapping from their indices to their bytes; the date test comes first,
    and a date would pass the object test too. *)
Theorem normalizePayload_reference :
  (forall v, normalizePayload v = normalize_ref v)
  /\ (forall t, isObject (VDate t) = true
                /\ normalizePayload (VDate t) = VNum (getTime t)
                /\ lodash_mapValues (VDate t) normalizePayload = VObj []).
Proof.
  split; [|intro t; repeat split].
  induction v as [| | | | | |k bs|xs IH|ps IH] using value_induction;
    simpl; try reflexivity.
  - f_equal. apply (index_props_combine bs 0).
  - f_equal. induction IH as [|x r Hx _ IHr]; simpl; [reflexivity|].
    rewrite Hx, IHr. reflexivity.
  - f_equal. induction IH as [|p r Hp _ IHr]; simpl; [reflexivity|].
    rewrite Hp, IHr. reflexivity.
Qed.

(** C6, as stated, fails on a [Buffer] met inside the value: it is no date,
    string, array or plain object, so the reference leaves it unchanged,
    while the code maps over its indices; the result is not the sequence of
    its elements either. *)
Lemma normalizePayload_buffer_counterexample :
  normalizePayload (VBuffer [x68; x69])
  = VObj [("0", VNum (NInt 104)); ("1", VNum (NInt 105))]
  /\ normalize_spec (VBuffer [x68; x69]) = VBuffer [x68; x69]
  /\ normalizePayload (VBuffer [x68; x69]) <> VArr [VNum (NInt 104); VNum (NInt 105)]
  /\ ~ (forall v, normalizePayload v = normalize_spec v).
Proof.
  split; [reflexivity|]. split; [reflexivity|]. split; [discriminate|].
  intro H. specialize (H (VBuffer [x68; x69])). discriminate H.
Qed.

Lemma index_props_normalized (bs : list byte) (i : N) :
  forallb (fun p => normalized (snd p)) (index_props i bs) = true.
Proof. revert i. induction bs as [|b r IH]; intro i; simpl; [reflexivity | apply IH]. Qed.

Lemma normalizePayload_output (v : value) : normalized (normalizePayload v) = true.
Proof.
  induction v as [| | | | | |k bs|xs IH|ps IH] using value_induction;
    simpl; try reflexivity.
  - apply index_props_normalized.
  - induction IH as [|x r Hx _ IHr]; simpl; [reflexivity|].
    rewrite Hx. exact IHr.
  - induction IH as [|p r Hp _ IHr]; simpl; [reflexivity|].
    rewrite Hp. exact IHr.
Qed.

Lemma normalizePayload_fixed (v : value) :
  normalized v = true -> normalizePayload v = v.
Proof.
  induction v as [| | | | | |k bs|xs IH|ps IH] using value_induction;
    simpl; intro H; try reflexivity; try discriminate H.
  - f_equal. induction IH as [|x r Hx _ IHr]; simpl in *; [reflexivity|].
    apply andb_true_iff in H. destruct H as [H1 H2].
    rewrite (Hx H1), (IHr H2). reflexivity.
  - f_equal. induction IH as [|[k x] r Hp _ IHr]; simpl in *; [reflexivity|].
    apply andb_true_iff in H. destruct H as [H1 H2].
    rewrite (Hp H1), (IHr H2). reflexivity.
Qed.

(** X1.  [normalizePayload] is idempotent: normalizing a normalized value
    changes nothing. *)
Theorem normalizePayload_idempotent (v : value) :
  normalizePayload (normalizePayload v) = normalizePayload v.
Proof. apply normalizePayload_fixed, normalizePayload_output. Qed.

(** X2.  The result of [normalizePayload] holds no date and no byte
    container at any depth, and the values [normalizePayload] returns as
    they are, are exactly the values that hold none. *)
Theorem normalizePayload_fixed_points (v : value) :
  normalized (normalizePayload v) = true
  /\ (normalizePayload v = v <-> normalized v = true).
Proof.
  split; [apply normalizePayload_output|]. split.
  - intro H. rewrite <- H. apply normalizePayload_output.
  - apply normalizePayload_fixed.
Qed.

(** ** [serialize] *)

(** C7.  [serialize] returns a value that is already a [Buffer] unchanged. *)
Theorem serialize_buffer_unchanged (bs : list byte) :
  serialize (VBuffer bs) = Return (VBuffer bs).
Proof. reflexivity. Qed.

(** A plain [Uint8Array] is not a [Buffer]: it is serialized as the JSON
    text of the mapping from its indices to its bytes. *)
Example serialize_raw_array :
  serialize (VUint8Array [x01; xff])
  = Return (VBuffer (Buffer_from ("{" +++ JSON_quote "0" +++ ":1,"
                                      +++ JSON_quote "1" +++ ":255}"))).
Proof. vm_compute. reflexivity. Qed.

(** What [serialize] returns is a [Buffer], so serializing it again changes
    nothing. *)
Lemma serialize_idempotent (v out : value) :
  serialize v = Return out -> serialize out = Return out.
Proof.
  unfold serialize at 1. destruct (instanceof_Buffer v) eqn:Hb.
  - intro H. injection H as <-.
    destruct v as [| | | | | |k bs| |]; try discriminate Hb.
    destruct k; [reflexivity | discriminate Hb].
  - destruct (isDate v || isString v);
      [destruct (toString (normalizePayload v))
      | destruct (JSON_stringify (normalizePayload v))];
      simpl; intro H; try discriminate H; injection H as <-; reflexivity.
Qed.






(** X3.  [serialize] does not tell a value from its normal form: but for a
    [Buffer], which is returned as it is, and an invalid date, which is
    written as [NaN], serializing [normalizePayload(v)] gives the bytes of
    serializing [v]; so a date is written as its millisecond number is. *)
Theorem serialize_normalizePayload (v : value) :
  instanceof_Buffer v = false ->
  v <> VDate None ->
  serialize (normalizePayload v) = serialize v.
Proof.
  intros Hb Hd.
  destruct v as [| |b|n|s|[t|]|[|] bs|xs|ps]; try reflexivity.
  - exfalso. apply Hd. reflexivity.
  - discriminate Hb.
  - unfold serialize.
    change (instanceof_Buffer (normalizePayload (VUint8Array bs))) with false.
    change (isDate (normalizePayload (VUint8Array bs))
            || isString (normalizePayload (VUint8Array bs))) with false.
    cbv beta iota. rewrite normalizePayload_fixed by apply normalizePayload_output.
    reflexivity.
  - unfold serialize.
    change (instanceof_Buffer (normalizePayload (VArr xs))) with false.
    change (isDate (normalizePayload (VArr xs))
            || isString (normalizePayload (VArr xs))) with false.
    cbv beta iota. rewrite normalizePayload_fixed by apply normalizePayload_output.
    reflexivity.
  - unfold serialize.
    change (instanceof_Buffer (normalizePayload (VObj ps))) with false.
    change (isDate (normalizePayload (VObj ps))
            || isString (normalizePayload (VObj ps))) with false.
    cbv beta iota. rewrite normalizePayload_fixed by apply normalizePayload_output.
    reflexivity.
Qed.

Lemma serialize_normalizePayload_witness :
  serialize (normalizePayload (VArr [VDate (Some 5); VUint8Array [x01]]))
  = serialize (VArr [VDate (Some 5); VUint8Array [x01]]).
Proof.
  apply (serialize_normalizePayload (VArr [VDate (Some 5); VUint8Array [x01]]));
    [reflexivity | discriminate].
Defined.

(** ** The deserializers *)

Lemma bufferToObject_null_or_empty (log : logger) :
  bufferToObject log ArgNull = (Return VNull, log)
  /\ bufferToObject log ArgUndefined = (Return VNull, log)
  /\ (forall bs, Buffer_toString bs = "" ->
                 bufferToObject log (Arg bs) = (Return VNull, log)).
Proof.
  repeat split. intros bs H. unfold bufferToObject. simpl. rewrite H. reflexivity.
Qed.

Lemma uInt8ArrayToObject_null_or_empty (log : logger) :
  uInt8ArrayToObject log ArgNull = (Return VNull, log)
  /\ (forall k bs, bytes_toString k bs = "" ->
                   uInt8ArrayToObject log (Arg (k, bs)) = (Return VNull, log)).
Proof.
  split; [reflexivity|]. intros k bs H. unfold uInt8ArrayToObject. simpl.
  rewrite H. reflexivity.
Qed.

(** C8, where the code departs from it: [uInt8ArrayToObject] compares its
    argument with [=== null], so an absent ([undefined]) payload reaches
    [payload.toString()] and a [TypeError] is raised. *)
Theorem uInt8ArrayToObject_undefined_raises (log : logger) :
  uInt8ArrayToObject log ArgUndefined = (Throw TypeError, log)
  /\ bufferToObject log ArgUndefined = (Return VNull, log).
Proof. split; reflexivity. Qed.

(** A [Buffer] passed to [uInt8ArrayToObject] is read as by [bufferToObject]. *)
Lemma uInt8ArrayToObject_on_Buffer (log : logger) (bs : list byte) :
  fst (uInt8ArrayToObject log (Arg (KBuffer, bs))) = fst (bufferToObject log (Arg bs)).
Proof.
  unfold uInt8ArrayToObject, bufferToObject. simpl.
  destruct (String.length (Buffer_toString bs) <=? 0)%nat; [reflexivity|].
  destruct (JSON_parse (Buffer_toString bs)); reflexivity.
Qed.

(** C4, where the code departs from it: on the two bytes of the text of an
    empty JSON object, [bufferToObject] returns the empty object, while
    [uInt8ArrayToObject], given a plain [Uint8Array], reads the comma-joined
    decimals of [toString()] and returns that text with an error logged. *)
Theorem entry_points_differ_on_raw_array :
  bufferToObject [] (Arg [x7b; x7d]) = (Return (VObj []), [])
  /\ uInt8ArrayToObject [] (Arg (KUint8Array, [x7b; x7d]))
     = (Return (VStr "123,125"),
        [mk_log "error" "Error parsing Uint8Array to JSON" "123,125"]).
Proof. split; vm_compute; reflexivity. Qed.

(** C3, as the code has it.  On a non-null input whose decoded text is not
    empty, either the text is not valid JSON, and the text itself is returned
    with exactly one record added to the logger, or it is, and the parsed
    value is returned and the logger is left as it was.  This holds of
    [bufferToObject], and of [uInt8ArrayToObject] when its payload is a
    [Buffer], whose [toString()] decodes the bytes. *)
Theorem deserializers_parse_or_fall_back (log : logger) (bs : list byte) :
  Buffer_toString bs <> "" ->
  (JSON_parse (Buffer_toString bs) = None ->
     bufferToObject log (Arg bs)
     = (Return (VStr (Buffer_toString bs)),
        (log ++ [mk_log "error" "Error parsing buffer to JSON" (Buffer_toString bs)])%list)
     /\ uInt8ArrayToObject log (Arg (KBuffer, bs))
        = (Return (VStr (Buffer_toString bs)),
           (log ++ [mk_log "error" "Error parsing Uint8Array to JSON"
                           (Buffer_toString bs)])%list))
  /\ (forall parsed, JSON_parse (Buffer_toString bs) = Some parsed ->
        bufferToObject log (Arg bs) = (Return parsed, log)
        /\ uInt8ArrayToObject log (Arg (KBuffer, bs)) = (Return parsed, log)).
Proof.
  intro Hne. unfold bufferToObject, uInt8ArrayToObject.
  cbn [strict_equals_number bytes_toString].
  rewrite (nonempty_length _ Hne). split.
  - intro Hp. rewrite Hp. split; reflexivity.
  - intros parsed Hp. rewrite Hp. split; reflexivity.
Qed.

Lemma deserializers_parse_or_fall_back_witness :
  (bufferToObject [] (Arg (Buffer_from "not json"))
   = (Return (VStr "not json"),
      [mk_log "error" "Error parsing buffer to JSON" "not json"])
   /\ uInt8ArrayToObject [] (Arg (KBuffer, Buffer_from "not json"))
      = (Return (VStr "not json"),
         [mk_log "error" "Error parsing Uint8Array to JSON" "not json"]))
  /\ (bufferToObject [] (Arg (Buffer_from "[true]")) = (Return (VArr [VBool true]), [])
      /\ uInt8ArrayToObject [] (Arg (KBuffer, Buffer_from "[true]"))
         = (Return (VArr [VBool true]), [])).
Proof.
  split.
  - destruct (deserializers_parse_or_fall_back [] (Buffer_from "not json")) as [Hfail _];
      [vm_compute; discriminate|].
    apply Hfail. vm_compute. reflexivity.
  - destruct (deserializers_parse_or_fall_back [] (Buffer_from "[true]")) as [_ Hok];
      [vm_compute; discriminate|].
    apply Hok. vm_compute. reflexivity.
Defined.

(** C3, as stated, fails on the empty buffer: its text is not valid JSON,
    yet [null] is returned, not the text, and nothing is logged. *)
Lemma bufferToObject_empty_counterexample :
  JSON_parse (Buffer_toString []) = None
  /\ bufferToObject [] (Arg []) = (Return VNull, [])
  /\ ~ (forall log bs, JSON_parse (Buffer_toString bs) = None ->
          bufferToObject log (Arg bs)
          = (Return (VStr (Buffer_toString bs)),
             (log ++ [mk_log "error" "Error parsing buffer to JSON" (Buffer_toString bs)])%list)).
Proof.
  repeat split; try reflexivity.
  intro H. specialize (H [] [] eq_refl). discriminate H.
Qed.

(** X4.  [bufferToObject] never raises, whatever it is given, and
    [uInt8ArrayToObject] does not either unless it is given [undefined].
    What they return is [null], a string or a parsed JSON value: never a
    date, [undefined] or a byte container, so the input is never handed back
    (the numeric test before the decoding never holds).  The logger is left
    as it was or receives one record, and then the text is what is
    returned. *)
Theorem deserializers_return_json (log : logger) :
  (forall buffer,
     exists v,
       fst (bufferToObject log buffer) = Return v
       /\ json_value v = true
       /\ (snd (bufferToObject log buffer) = log
           \/ exists text,
                v = VStr text
                /\ snd (bufferToObject log buffer)
                   = logger_error "Error parsing buffer to JSON" text log))
  /\ (forall payload,
        payload <> ArgUndefined ->
        exists v,
          fst (uInt8ArrayToObject log payload) = Return v
          /\ json_value v = true
          /\ (snd (uInt8ArrayToObject log payload) = log
              \/ exists text,
                   v = VStr text
                   /\ snd (uInt8ArrayToObject log payload)
                      = logger_error "Error parsing Uint8Array to JSON" text log)).
Proof.
  split.
  - intros [| |bs]; try (exists VNull; repeat split; left; reflexivity).
    unfold bufferToObject. cbn [strict_equals_number].
    destruct (String.length (Buffer_toString bs) <=? 0)%nat;
      [exists VNull; repeat split; left; reflexivity|].
    destruct (JSON_parse (Buffer_toString bs)) as [parsed|] eqn:E.
    + exists parsed. split; [reflexivity|]. split; [|left; reflexivity].
      exact (JSON_parse_json_value _ _ E).
    + exists (VStr (Buffer_toString bs)). split; [reflexivity|].
      split; [reflexivity|]. right. eexists. split; reflexivity.
  - intros [| |[k bs]] Hp; [exfalso; apply Hp; reflexivity | |].
    { exists VNull. repeat split. left. reflexivity. }
    unfold uInt8ArrayToObject. cbn [strict_equals_number].
    destruct (String.length (bytes_toString k bs) <=? 0)%nat;
      [exists VNull; repeat split; left; reflexivity|].
    destruct (JSON_parse (bytes_toString k bs)) as [parsed|] eqn:E.
    + exists parsed. split; [reflexivity|]. split; [|left; reflexivity].
      exact (JSON_parse_json_value _ _ E).
    + exists (VStr (bytes_toString k bs)). split; [reflexivity|].
      split; [reflexivity|]. right. eexists. split; reflexivity.
Qed.

Lemma deserializers_return_json_witness :
  exists v,
    fst (uInt8ArrayToObject [] (Arg (KBuffer, [xff]))) = Return v
    /\ json_value v = true
    /\ (snd (uInt8ArrayToObject [] (Arg (KBuffer, [xff]))) = []
        \/ exists text,
             v = VStr text
             /\ snd (uInt8ArrayToObject [] (Arg (KBuffer, [xff])))
                = logger_error "Error parsing Uint8Array to JSON" text []).
Proof.
  destruct (deserializers_return_json []) as [_ H].
  apply (H (Arg (KBuffer, [xff]))). discriminate.
Defined.

(** X5.  Given a plain [Uint8Array], [uInt8ArrayToObject] never decodes the
    bytes as text: it reads the comma-joined decimals of [toString()], so it
    returns [null] for no byte, the number of the byte for a single byte,
    and for two bytes or more that comma-joined text, with one error
    logged. *)
Theorem uInt8ArrayToObject_plain_array (log : logger) (bs : list byte) :
  uInt8ArrayToObject log (Arg (KUint8Array, bs))
  = match bs with
    | [] => (Return VNull, log)
    | [b] => (Return (VNum (byte_number b)), log)
    | _ :: _ :: _ =>
        (Return (VStr (Uint8Array_toString bs)),
         logger_error "Error parsing Uint8Array to JSON" (Uint8Array_toString bs) log)
    end.
Proof.
  destruct bs as [|b [|b' r]]; [reflexivity | |].
  - unfold uInt8ArrayToObject. cbn [strict_equals_number].
    change (bytes_toString KUint8Array [b]) with (digits (Byte.to_N b)).
    rewrite (nonempty_length _ (digits_nonempty _)).
    rewrite (JSON_parse_digits _ (byte_below b)). reflexivity.
  - unfold uInt8ArrayToObject. cbn [strict_equals_number].
    change (bytes_toString KUint8Array (b :: b' :: r))
      with (Uint8Array_toString (b :: b' :: r)).
    assert (Ht : Uint8Array_toString (b :: b' :: r)
                 = digits (Byte.to_N b) +++ String "," (Uint8Array_toString (b' :: r)))
      by reflexivity.
    assert (Hne : Uint8Array_toString (b :: b' :: r) <> "").
    { rewrite Ht. pose proof (digits_nonempty (Byte.to_N b)) as Hd.
      destruct (digits (Byte.to_N b)); [exfalso; apply Hd; reflexivity | discriminate]. }
    rewrite (nonempty_length _ Hne).
    replace (JSON_parse (Uint8Array_toString (b :: b' :: r))) with (@None value);
      [reflexivity|].
    rewrite Ht. symmetry. apply JSON_parse_digits_comma. apply byte_below.
Qed.

(** X6.  Given a [Buffer], [uInt8ArrayToObject] behaves as [bufferToObject]
    does: the same value is returned, and the logger receives a record for
    the same text in the same cases; only the message of the record differs. *)
Theorem uInt8ArrayToObject_as_bufferToObject (log : logger) (bs : list byte) :
  fst (uInt8ArrayToObject log (Arg (KBuffer, bs))) = fst (bufferToObject log (Arg bs))
  /\ map level (snd (uInt8ArrayToObject log (Arg (KBuffer, bs))))
     = map level (snd (bufferToObject log (Arg bs)))
  /\ map meta (snd (uInt8ArrayToObject log (Arg (KBuffer, bs))))
     = map meta (snd (bufferToObject log (Arg bs))).
Proof.
  unfold uInt8ArrayToObject, bufferToObject. cbn [strict_equals_number bytes_toString].
  destruct (String.length (Buffer_toString bs) <=? 0)%nat;
    [repeat split|].
  destruct (JSON_parse (Buffer_toString bs)); [repeat split|].
  unfold logger_error. cbn [fst snd]. rewrite !map_app. repeat split.
Qed.

(** ** [serialize], then [bufferToObject] *)

Lemma serialize_json_safe (x : value) :
  json_safe x = true ->
  isString x = false ->
  serialize x = Return (VBuffer (Buffer_from (item_text x))).
Proof.
  intros Hsafe Hstr. unfold serialize.
  rewrite (normalizePayload_json_safe x Hsafe), (json_safe_stringify x Hsafe).
  destruct x; try discriminate Hsafe; try discriminate Hstr; reflexivity.
Qed.

Lemma bufferToObject_of_text (log : logger) (text : string) :
  utf8_valid text = true ->
  text <> "" ->
  bufferToObject log (Arg (Buffer_from text))
  = match JSON_parse text with
    | Some parsed => (Return parsed, log)
    | None => (Return (VStr text), logger_error "Error parsing buffer to JSON" text log)
    end.
Proof.
  intros Hvalid Hne. unfold bufferToObject.
  rewrite (Buffer_round_trip text Hvalid).
  cbn [strict_equals_number]. rewrite (nonempty_length text Hne). reflexivity.
Qed.

(** C1, as the code has it.  A JSON-safe value without dates that is not
    itself a string comes back from [serialize] followed by [bufferToObject]
    as it was, and nothing is logged; a string comes back as it was when it
    is not empty and is not itself the text of a JSON value, and then one
    error is logged. *)
Theorem deserialize_serialize_round_trip (log : logger) (x : value) :
  json_safe x = true ->
  (isString x = false -> deserialize_serialized log x = (Return x, log))
  /\ (forall s, x = VStr s -> s <> "" -> JSON_parse s = None ->
        deserialize_serialized log x
        = (Return x, logger_error "Error parsing buffer to JSON" s log)).
Proof.
  intro Hsafe. split.
  - intro Hstr. unfold deserialize_serialized.
    rewrite (serialize_json_safe x Hsafe Hstr). cbv beta iota.
    rewrite bufferToObject_of_text.
    + rewrite (JSON_parse_stringify x Hsafe). reflexivity.
    + apply utf8_valid_item_text. exact Hsafe.
    + apply item_text_nonempty. exact Hsafe.
  - intros s -> Hne Hparse. unfold deserialize_serialized.
    change (serialize (VStr s)) with (Return (VBuffer (Buffer_from s))).
    cbv beta iota.
    rewrite bufferToObject_of_text; [|exact Hsafe | exact Hne].
    rewrite Hparse. reflexivity.
Qed.

Lemma deserialize_serialize_round_trip_witness :
  deserialize_serialized []
    (VObj [("7", VArr [VNum (NInt (-12)); VNum (NDec 15 (-1)); VStr "123"; VNull]);
           ("a", VBool true)])
  = (Return (VObj [("7", VArr [VNum (NInt (-12)); VNum (NDec 15 (-1)); VStr "123"; VNull]);
                   ("a", VBool true)]), [])
  /\ deserialize_serialized [] (VStr "not json")
     = (Return (VStr "not json"),
        logger_error "Error parsing buffer to JSON" "not json" []).
Proof.
  split.
  - apply (deserialize_serialize_round_trip []
             (VObj [("7", VArr [VNum (NInt (-12)); VNum (NDec 15 (-1)); VStr "123"; VNull]);
                    ("a", VBool true)])); reflexivity.
  - apply (deserialize_serialize_round_trip [] (VStr "not json") eq_refl);
      [reflexivity | discriminate | vm_compute; reflexivity].
Defined.

(** C1, as stated, fails on a string that is itself the text of a JSON
    value: [serialize] writes a string without quotes, so the string ["123"]
    comes back as the number 123 (and the empty string as [null]). *)
Lemma round_trip_string_counterexample :
  json_safe (VStr "123") = true
  /\ deserialize_serialized [] (VStr "123") = (Return (VNum (NInt 123)), [])
  /\ deserialize_serialized [] (VStr "") = (Return VNull, [])
  /\ ~ (forall x, json_safe x = true -> fst (deserialize_serialized [] x) = Return x).
Proof.
  split; [reflexivity|]. split; [vm_compute; reflexivity|].
  split; [vm_compute; reflexivity|].
  intro H. specialize (H (VStr "123") eq_refl).
  vm_compute in H. discriminate H.
Qed.

Lemma serialize_text (x : value) :
  json_safe (normalizePayload x) = true ->
  isString x = false ->
  instanceof_Buffer x = false ->
  serialize x = Return (VBuffer (Buffer_from (item_text (normalizePayload x)))).
Proof.
  intros Hsafe Hstr Hbuf. unfold serialize. rewrite Hbuf, Hstr, orb_false_r.
  rewrite (json_safe_stringify _ Hsafe).
  destruct (isDate x) eqn:Hd; [|reflexivity].
  destruct x as [| | | | |[t|]| | |]; try discriminate Hd; [reflexivity|].
  discriminate Hsafe.
Qed.

(** X7.  A value whose normal form is JSON-safe, and which is neither a
    string nor a [Buffer], comes back from [serialize] followed by
    [bufferToObject] as its normal form, with nothing logged: a date, at the
    top or inside, comes back as its millisecond number, and a plain
    [Uint8Array] as the mapping from its indices to its bytes. *)
Theorem deserialize_serialize_normalizes (log : logger) (x : value) :
  json_safe (normalizePayload x) = true ->
  isString x = false ->
  instanceof_Buffer x = false ->
  deserialize_serialized log x = (Return (normalizePayload x), log).
Proof.
  intros Hsafe Hstr Hbuf. unfold deserialize_serialized.
  rewrite (serialize_text x Hsafe Hstr Hbuf). cbv beta iota.
  rewrite bufferToObject_of_text.
  - rewrite (JSON_parse_stringify _ Hsafe). reflexivity.
  - apply utf8_valid_item_text. exact Hsafe.
  - apply item_text_nonempty. exact Hsafe.
Qed.

Lemma deserialize_serialize_normalizes_witness :
  deserialize_serialized []
    (VObj [("at", VDate (Some 1609459200000)); ("raw", VUint8Array [x68; x69])])
  = (Return (VObj [("at", VNum (NInt 1609459200000));
                   ("raw", VObj [("0", VNum (NInt 104)); ("1", VNum (NInt 105))])]), []).
Proof.
  apply (deserialize_serialize_normalizes []
           (VObj [("at", VDate (Some 1609459200000)); ("raw", VUint8Array [x68; x69])]));
    reflexivity.
Defined.

(** X8.  For every JSON-safe value that is not a string there is a string,
    its JSON text, that [serialize] writes as the same bytes: once
    serialized, the two cannot be told apart. *)
Theorem serialize_string_collision (x : value) :
  json_safe x = true ->
  isString x = false ->
  serialize (VStr (item_text x)) = serialize x
  /\ json_safe (VStr (item_text x)) = true
  /\ VStr (item_text x) <> x.
Proof.
  intros Hsafe Hstr. split; [|split].
  - rewrite (serialize_json_safe x Hsafe Hstr). reflexivity.
  - apply utf8_valid_item_text. exact Hsafe.
  - intro H. rewrite <- H in Hstr. discriminate Hstr.
Qed.

Lemma serialize_string_collision_witness :
  serialize (VStr (item_text (VArr [VNum (NInt 1); VBool true])))
  = serialize (VArr [VNum (NInt 1); VBool true])
  /\ json_safe (VStr (item_text (VArr [VNum (NInt 1); VBool true]))) = true
  /\ VStr (item_text (VArr [VNum (NInt 1); VBool true])) <> VArr [VNum (NInt 1); VBool true].
Proof.
  apply (serialize_string_collision (VArr [VNum (NInt 1); VBool true])); reflexivity.
Defined.

Lemma bufferToObject_json_value (log : logger) (buffer : arg (list byte)) (v : value) :
  fst (bufferToObject log buffer) = Return v -> json_value v = true.
Proof.
  destruct buffer as [| |bs]; try (intro H; injection H as <-; reflexivity).
  unfold bufferToObject. cbn [strict_equals_number].
  destruct (String.length (Buffer_toString bs) <=? 0)%nat;
    [intro H; injection H as <-; reflexivity|].
  destruct (JSON_parse (Buffer_toString bs)) as [parsed|] eqn:E;
    intro H; injection H as <-; [|reflexivity].
  exact (JSON_parse_json_value _ _ E).
Qed.

Lemma serialize_returns_Buffer (v out : value) :
  serialize v = Return out -> exists bs, out = VBuffer bs.
Proof.
  unfold serialize. destruct (instanceof_Buffer v) eqn:Hb.
  - intro H. injection H as <-.
    destruct v as [| | | | | |k bs| |]; try discriminate Hb.
    destruct k; [exists bs; reflexivity | discriminate Hb].
  - destruct (isDate v || isString v);
      [destruct (toString (normalizePayload v))
      | destruct (JSON_stringify (normalizePayload v))];
      simpl; intro H; try discriminate H; injection H as <-; eexists; reflexivity.
Qed.

(** X22.  Only JSON values can come back as they were: a value that holds
    a date, [undefined] or a byte container, at the top or at any depth,
    does not come back from [serialize] followed by [bufferToObject]
    unchanged. *)
Theorem round_trip_only_json_values (log : logger) (x : value) :
  json_value x = false ->
  fst (deserialize_serialized log x) <> Return x.
Proof.
  intros Hx H.
  assert (Hv : json_value x = true); [|rewrite Hv in Hx; discriminate Hx].
  unfold deserialize_serialized in H.
  destruct (serialize x) as [out|e] eqn:Hs; [|discriminate H].
  destruct (serialize_returns_Buffer x out Hs) as [bs ->].
  exact (bufferToObject_json_value log (Arg bs) x H).
Qed.

Lemma round_trip_only_json_values_witness :
  fst (deserialize_serialized [] (VArr [VDate (Some 5)])) <> Return (VArr [VDate (Some 5)]).
Proof.
  apply (round_trip_only_json_values [] (VArr [VDate (Some 5)])). reflexivity.
Defined.

(** ** [bufferToDate] *)

Lemma has_digit_append (a b : string) :
  has_digit (a +++ b) = has_digit a || has_digit b.
Proof.
  induction a as [|c r IH]; simpl; [reflexivity|].
  rewrite IH. apply orb_assoc.
Qed.

Lemma trim_start_suffix (s : string) : exists p, s = p +++ trim_start s.
Proof.
  induction s as [s IH] using string_length_induction.
  destruct s as [|a r]; [exists ""; reflexivity|].
  simpl. destruct (is_space1 a).
  { destruct (IH r) as [p Hp]; [simpl; lia|].
    exists (String a p). simpl. congruence. }
  destruct r as [|b r1]; [exists ""; reflexivity|].
  destruct (is_space2 a b).
  { destruct (IH r1) as [p Hp]; [simpl; lia|].
    exists (String a (String b p)). simpl. congruence. }
  destruct r1 as [|c r2]; [exists ""; reflexivity|].
  destruct (is_space3 a b c); [|exists ""; reflexivity].
  destruct (IH r2) as [p Hp]; [simpl; lia|].
  exists (String a (String b (String c p))). simpl. congruence.
Qed.

Lemma has_digit_trim_start (s : string) :
  has_digit (trim_start s) = true -> has_digit s = true.
Proof.
  intro H. destruct (trim_start_suffix s) as [p Hp].
  rewrite Hp, has_digit_append, H. apply orb_true_r.
Qed.

Lemma has_digit_string_of_uint (u : uint) :
  u <> Nil -> has_digit (NilEmpty.string_of_uint u) = true.
Proof. destruct u; simpl; intro H; try reflexivity. exfalso. apply H. reflexivity. Qed.

Lemma has_digit_nonempty (s : string) : has_digit s = true -> s <> "".
Proof. destruct s; simpl; intro H; [discriminate H | discriminate]. Qed.

Lemma lex_sign_digits (neg : bool) (u : uint) (rest : string) :
  u <> Nil ->
  lex_sign ((if neg then "-" else "") +++ NilEmpty.string_of_uint u +++ rest)
  = (neg, NilEmpty.string_of_uint u +++ rest).
Proof.
  intro Hu. destruct neg; [reflexivity|].
  destruct u; simpl; try reflexivity. exfalso. apply Hu. reflexivity.
Qed.

Lemma parseInt_leading_run (text : string) (neg : bool) (u : uint) (rest : string) :
  u <> Nil ->
  head_is_digit rest = false ->
  trim_start text = (if neg then "-" else "") +++ NilEmpty.string_of_uint u +++ rest ->
  parseInt text = NInt (if neg then - Z.of_uint u else Z.of_uint u).
Proof.
  intros Hu Hrest Htext. unfold parseInt.
  rewrite Htext, lex_sign_digits by exact Hu.
  rewrite lex_digits_string_of_uint by exact Hrest.
  destruct u; try reflexivity. exfalso. apply Hu. reflexivity.
Qed.

(** C9, as the code has it.  [bufferToDate] returns [undefined] for a null,
    absent or empty input and for a text without any digit; for a text that
    starts, after white space and an optional minus sign, with a run of
    digits, it returns the date whose time value is that signed integer
    (an invalid date beyond the range of time values). *)
Theorem bufferToDate_leading_run :
  bufferToDate ArgNull = VUndefined
  /\ bufferToDate ArgUndefined = VUndefined
  /\ (forall bs, Buffer_toString bs = "" -> bufferToDate (Arg bs) = VUndefined)
  /\ (forall bs, has_digit (Buffer_toString bs) = false ->
                 bufferToDate (Arg bs) = VUndefined)
  /\ (forall (bs : list byte) (neg : bool) (u : uint) (rest : string),
        u <> Nil ->
        head_is_digit rest = false ->
        trim_start (Buffer_toString bs)
        = (if neg then "-" else "") +++ NilEmpty.string_of_uint u +++ rest ->
        bufferToDate (Arg bs)
        = VDate (TimeClip (if neg then - Z.of_uint u else Z.of_uint u))).
Proof.
  split; [reflexivity|]. split; [reflexivity|]. split; [|split].
  - intros bs H. unfold bufferToDate. rewrite H. reflexivity.
  - intros bs H. unfold bufferToDate. rewrite H.
    destruct (String.length (Buffer_toString bs) <=? 0)%nat; reflexivity.
  - intros bs neg u rest Hu Hrest Htext. unfold bufferToDate.
    assert (Hd : has_digit (Buffer_toString bs) = true).
    { apply has_digit_trim_start. rewrite Htext.
      rewrite !has_digit_append, (has_digit_string_of_uint u Hu).
      rewrite orb_true_r. reflexivity. }
    rewrite (nonempty_length _ (has_digit_nonempty _ Hd)), Hd.
    rewrite (parseInt_leading_run _ neg u rest Hu Hrest Htext). reflexivity.
Qed.

Lemma bufferToDate_leading_run_witness :
  bufferToDate (Arg (Buffer_from "1609459200000")) = VDate (Some 1609459200000)
  /\ bufferToDate (Arg (Buffer_from " -12ab")) = VDate (Some (-12))
  /\ bufferToDate (Arg (Buffer_from "abc")) = VUndefined
  /\ bufferToDate (Arg (Buffer_from "")) = VUndefined.
Proof.
  destruct bufferToDate_leading_run as (_ & _ & Hempty & Hnone & Hrun).
  split; [|split; [|split]].
  - apply (Hrun (Buffer_from "1609459200000") false
             (D1 (D6 (D0 (D9 (D4 (D5 (D9 (D2 (D0 (D0 (D0 (D0 (D0 Nil))))))))))))) "");
      [discriminate | reflexivity | vm_compute; reflexivity].
  - apply (Hrun (Buffer_from " -12ab") true (D1 (D2 Nil)) "ab");
      [discriminate | reflexivity | vm_compute; reflexivity].
  - apply Hnone. vm_compute. reflexivity.
  - apply Hempty. vm_compute. reflexivity.
Defined.

(** C9, as stated, fails where the digits do not lead the text: ['a1']
    contains the run [1], yet [parseInt] reads no number from it and the
    result is an invalid date, not the date of time value 1; and a minus
    sign before the run is read as part of the number. *)
Lemma bufferToDate_digit_run_counterexample :
  has_digit (Buffer_toString (Buffer_from "a1")) = true
  /\ first_digit_run (Buffer_toString (Buffer_from "a1")) = 1
  /\ bufferToDate (Arg (Buffer_from "a1")) = VDate None
  /\ bufferToDate (Arg (Buffer_from "-5")) = VDate (Some (-5))
  /\ ~ (forall bs, has_digit (Buffer_toString bs) = true ->
          bufferToDate (Arg bs)
          = Date_new (NInt (first_digit_run (Buffer_toString bs)))).
Proof.
  split; [vm_compute; reflexivity|].
  split; [vm_compute; reflexivity|].
  split; [vm_compute; reflexivity|].
  split; [vm_compute; reflexivity|].
  intro H. specialize (H (Buffer_from "a1") eq_refl).
  vm_compute in H. discriminate H.
Qed.

Lemma trim_start_number (c : ascii) (r : string) :
  is_digit c || Ascii.eqb c "-" = true -> trim_start (String c r) = String c r.
Proof.
  intro H.
  assert (H1 : is_space1 c = false
               /\ (forall b, is_space2 c b = false)
               /\ (forall b d, is_space3 c b d = false)).
  { destruct c as [[] [] [] [] [] [] [] []]; try discriminate H;
      (split; [reflexivity | split; intros; reflexivity]). }
  destruct H1 as (S1 & S2 & S3).
  cbn [trim_start]. rewrite S1.
  destruct r as [|b r1]; [reflexivity|]. rewrite S2.
  destruct r1 as [|d r2]; [reflexivity|]. rewrite S3. reflexivity.
Qed.

Lemma sign_digits_head (z : Z) (n : N) :
  exists c r, sign_text z +++ digits n = String c r
              /\ is_digit c || Ascii.eqb c "-" = true.
Proof.
  unfold sign_text. destruct (z <? 0).
  - exists "-"%char, (digits n). split; reflexivity.
  - unfold digits. pose proof (to_uint_nonnil n) as Hn.
    destruct (N.to_uint n); try (exfalso; apply Hn; reflexivity);
      eexists; eexists; (split; [reflexivity | reflexivity]).
Qed.

Lemma parseInt_Number_toString (z : Z) :
  Z.abs z < 10 ^ 21 -> parseInt (Number_toString (NInt z)) = NInt z.
Proof.
  intro H. rewrite (Number_toString_integer z H).
  rewrite (parseInt_leading_run _ (z <? 0) (N.to_uint (Z.abs_N z)) "").
  - rewrite Z_of_uint_to_uint, N2Z.inj_abs_N, signed_abs. reflexivity.
  - apply to_uint_nonnil.
  - reflexivity.
  - destruct (sign_digits_head z (Z.abs_N z)) as (c & r & Hc & Hh).
    rewrite Hc, (trim_start_number c r Hh), <- Hc, append_nil_r. reflexivity.
Qed.

(** X9.  A valid date comes back from [serialize] followed by
    [bufferToDate]: the bytes written are the decimal digits of its time
    value, signed when it lies before the epoch, which [bufferToDate] reads
    as that time value. *)
Theorem bufferToDate_serialize_date (t : Z) :
  Z.abs t <= MAX_TIME ->
  exists bs,
    serialize (VDate (Some t)) = Return (VBuffer bs)
    /\ bufferToDate (Arg bs) = VDate (Some t).
Proof.
  intro Ht. exists (Buffer_from (Number_toString (NInt t))).
  split; [reflexivity|].
  assert (H21 : Z.abs t < 10 ^ 21).
  { eapply Z.le_lt_trans; [exact Ht | reflexivity]. }
  unfold bufferToDate.
  rewrite (Buffer_round_trip _ (utf8_valid_Number_toString_integer t)).
  rewrite (parseInt_Number_toString t H21).
  assert (Hd : has_digit (Number_toString (NInt t)) = true).
  { rewrite (Number_toString_integer t H21), has_digit_append.
    unfold digits. rewrite (has_digit_string_of_uint _ (to_uint_nonnil _)).
    apply orb_true_r. }
  rewrite (nonempty_length _ (has_digit_nonempty _ Hd)), Hd.
  unfold Date_new, TimeClip. destruct (Z.leb_spec (Z.abs t) MAX_TIME); [reflexivity | lia].
Qed.

Lemma bufferToDate_serialize_date_witness :
  exists bs,
    serialize (VDate (Some (-86400000))) = Return (VBuffer bs)
    /\ bufferToDate (Arg bs) = VDate (Some (-86400000)).
Proof.
  apply (bufferToDate_serialize_date (-86400000)). vm_compute. discriminate.
Defined.

(** X10.  When the text holds a digit but does not start, after white space
    and an optional sign, with one, [bufferToDate] returns an invalid date,
    not [undefined] and not the date of the digits met further on. *)
Theorem bufferToDate_no_leading_digit (bs : list byte) :
  has_digit (Buffer_toString bs) = true ->
  head_is_digit (snd (lex_sign (trim_start (Buffer_toString bs)))) = false ->
  bufferToDate (Arg bs) = VDate None.
Proof.
  intros Hd Hh. unfold bufferToDate.
  rewrite (nonempty_length _ (has_digit_nonempty _ Hd)), Hd.
  unfold parseInt. destruct (lex_sign (trim_start (Buffer_toString bs))) as [neg s].
  cbn [snd] in Hh. rewrite (lex_digits_stop s Hh). reflexivity.
Qed.

Lemma bufferToDate_no_leading_digit_witness :
  bufferToDate (Arg (Buffer_from "id-42")) = VDate None.
Proof.
  apply (bufferToDate_no_leading_digit (Buffer_from "id-42")); vm_compute; reflexivity.
Defined.

(** ** [bufferToString] *)

(** X11.  A string comes back from [serialize] followed by [bufferToString]
    as it was: serializing writes the bytes of the text, without quotes, and
    [bufferToString] decodes them. *)
Theorem bufferToString_serialize_string (s : string) :
  utf8_valid s = true ->
  exists bs,
    serialize (VStr s) = Return (VBuffer bs)
    /\ bufferToString (Arg bs) = VStr s.
Proof.
  intro Hs. exists (Buffer_from s). split; [reflexivity|].
  unfold bufferToString. rewrite (Buffer_round_trip s Hs). reflexivity.
Qed.

Lemma bufferToString_serialize_string_witness :
  exists bs,
    serialize (VStr "123") = Return (VBuffer bs)
    /\ bufferToString (Arg bs) = VStr "123".
Proof. apply (bufferToString_serialize_string "123"). reflexivity. Defined.

(** X12.  Whatever the bytes, the text [bufferToString] returns is
    well-formed (an ill-formed sequence has become U+FFFD), and serializing
    that text and reading it again returns it unchanged. *)
Theorem bufferToString_stable (bs : list byte) :
  exists s bs',
    bufferToString (Arg bs) = VStr s
    /\ utf8_valid s = true
    /\ serialize (VStr s) = Return (VBuffer bs')
    /\ bufferToString (Arg bs') = VStr s.
Proof.
  exists (Buffer_toString bs), (Buffer_from (Buffer_toString bs)).
  assert (Hv : utf8_valid (Buffer_toString bs) = true) by apply utf8_decode_valid.
  split; [reflexivity|]. split; [exact Hv|]. split; [reflexivity|].
  unfold bufferToString. rewrite (Buffer_round_trip _ Hv). reflexivity.
Qed.

(** ** Draining iterators *)

Lemma count_close_app (a b : list call) :
  count_close (a ++ b)%list = (count_close a + count_close b)%nat.
Proof.
  unfold count_close. rewrite filter_app, length_app. reflexivity.
Qed.

(** As long as [next()] resolves without [done] and the loop body does not
    raise, the loop goes on with the rest of the results. *)
Lemma drain_continues {A R : Type} (body : NextResult A -> list R -> outcome (list R))
    (closing : option exn) (pre : list (next_outcome A)) :
  (forall res acc, exists acc', body res acc = Return acc') ->
  Forall continues pre ->
  forall tl made acc,
  exists acc',
    drain body closing (pre ++ tl)%list made acc
    = drain body closing tl (made ++ repeat CallNext (List.length pre))%list acc'.
Proof.
  intros Hbody Hpre. induction Hpre as [|o pre Ho _ IH]; intros tl made acc.
  - exists acc. simpl. rewrite List.app_nil_r. reflexivity.
  - destruct Ho as [res [-> Hdone]]. simpl.
    destruct (Hbody res acc) as [acc1 Hacc1]. rewrite Hacc1, Hdone.
    destruct (IH tl (made ++ [CallNext])%list acc1) as [acc' Hacc'].
    exists acc'. rewrite Hacc', <- List.app_assoc. reflexivity.
Qed.

Lemma list_body_returns (res : NextResult KV_entry) (acc : list value) :
  exists acc', list_body res acc = Return acc'.
Proof.
  unfold list_body. destruct (next_value res); [|eexists; reflexivity].
  destruct (0 <? _)%nat; eexists; reflexivity.
Qed.

Lemma kv_body_returns (res : NextResult KV_entry) (acc : list KV) :
  exists acc', kv_body res acc = Return acc'.
Proof.
  unfold kv_body. destruct (next_value res); [|eexists; reflexivity].
  destruct (0 <? _)%nat; eexists; reflexivity.
Qed.

(** On normal completion [close()] is called once, last, and, when it
    resolves, the list is returned. *)
Lemma drain_completes {A R : Type} (body : NextResult A -> list R -> outcome (list R))
    (pre : list (next_outcome A)) (last : NextResult A) (rest : list (next_outcome A))
    (made : list call) :
  (forall res acc, exists acc', body res acc = Return acc') ->
  Forall continues pre ->
  done last = true ->
  exists results,
    drain body None (pre ++ Resolves last :: rest)%list made []
    = (Return results,
       mk_iterator rest
         (made ++ repeat CallNext (S (List.length pre)) ++ [CallClose])%list).
Proof.
  intros Hbody Hpre Hdone.
  destruct (drain_continues body None pre Hbody Hpre (Resolves last :: rest) made [])
    as [acc Hacc].
  rewrite Hacc. simpl. destruct (Hbody last acc) as [results Hres].
  rewrite Hres, Hdone. exists results. f_equal. f_equal.
  rewrite <- List.app_assoc. f_equal.
  change [CallNext; CallClose] with ([CallNext] ++ [CallClose])%list.
  rewrite List.app_assoc, <- (repeat_cons (List.length pre) CallNext). reflexivity.
Qed.

(** When a [next()] call rejects, the rejection is the outcome and
    [close()] has not been called. *)
Lemma drain_rejected {A R : Type} (body : NextResult A -> list R -> outcome (list R))
    (closing : option exn) (pre : list (next_outcome A)) (e : exn)
    (rest : list (next_outcome A)) (made : list call) :
  (forall res acc, exists acc', body res acc = Return acc') ->
  Forall continues pre ->
  drain body closing (pre ++ Rejects e :: rest)%list made []
  = (Throw e, Iterator rest closing (made ++ repeat CallNext (S (List.length pre)))%list).
Proof.
  intros Hbody Hpre.
  destruct (drain_continues body closing pre Hbody Hpre (Rejects e :: rest) made [])
    as [acc Hacc].
  rewrite Hacc. simpl. f_equal. f_equal.
  rewrite <- List.app_assoc. f_equal.
  rewrite <- (repeat_cons (List.length pre) CallNext). reflexivity.
Qed.

(** C2, where the code departs from it: three valued items are scripted,
    the second [next()] rejects; each drain function lets the rejection
    through and the iterator has received two [next()] calls and no
    [close()]. *)
Theorem drain_skips_close_on_rejection :
  let a := Resolves (mk_next (Some (mk_entry "k1" (Buffer_from "1"))) false) in
  let b := Resolves (mk_next (Some (mk_entry "k2" (Buffer_from "2"))) false) in
  let h := Resolves (mk_next (Some (mk_modification (Buffer_from "1") false "tx1" (Some 100))) false) in
  let boom := Rejected "next failed" in
  iteratorToList (mk_iterator [a; Rejects boom; b; Resolves (mk_next None true)] [])
  = (Throw boom, mk_iterator [b; Resolves (mk_next None true)] [CallNext; CallNext])
  /\ iteratorToKVList (mk_iterator [a; Rejects boom; b; Resolves (mk_next None true)] [])
     = (Throw boom, mk_iterator [b; Resolves (mk_next None true)] [CallNext; CallNext])
  /\ iteratorToHistoryList (mk_iterator [h; Rejects boom; h; Resolves (mk_next None true)] [])
     = (Throw boom, mk_iterator [h; Resolves (mk_next None true)] [CallNext; CallNext])
  /\ count_close [CallNext; CallNext] = 0%nat.
Proof. repeat split. Qed.

Lemma history_body_raises_TypeError (res : NextResult KeyModification)
    (acc : list KeyModificationItem) (e : exn) :
  history_body res acc = Throw e -> e = TypeError.
Proof.
  unfold history_body. destruct (next_value res) as [item|]; [|discriminate].
  destruct (0 <? _)%nat; [|discriminate].
  destruct (km_timestamp item); [discriminate|]. congruence.
Qed.

Lemma drain_history_raises (pre : list (next_outcome KeyModification)) :
  Forall continues pre ->
  forall res item rest made acc,
  next_value res = Some item ->
  km_value item <> [] ->
  km_timestamp item = None ->
  exists it',
    drain history_body None (pre ++ Resolves res :: rest)%list made acc = (Throw TypeError, it')
    /\ count_close (calls it') = count_close made.
Proof.
  intro Hpre. induction Hpre as [|o pre Ho _ IH];
    intros res item rest made acc Hitem Hval Hts.
  - simpl. unfold history_body at 1. rewrite Hitem.
    assert (Hne : Buffer_toString (km_value item) <> "").
    { intro H. apply Hval. apply Buffer_toString_empty_iff. exact H. }
    apply length_pos_iff in Hne. rewrite Hne, Hts.
    eexists. split; [reflexivity|]. simpl.
    rewrite count_close_app. change (count_close [CallNext]) with 0%nat. lia.
  - destruct Ho as [r [-> Hdone]]. simpl.
    destruct (history_body r acc) as [acc1|e] eqn:Hb.
    + rewrite Hdone.
      destruct (IH res item rest (made ++ [CallNext])%list acc1 Hitem Hval Hts)
        as [it' [Hit' Hc]].
      exists it'. split; [exact Hit'|].
      rewrite Hc, count_close_app. change (count_close [CallNext]) with 0%nat. lia.
    + apply history_body_raises_TypeError in Hb. subst e.
      eexists. split; [reflexivity|]. simpl.
      rewrite count_close_app. change (count_close [CallNext]) with 0%nat. lia.
Qed.

(** C10.  When the results that [next()] resolves, none of them [done],
    lead to an item with a non-empty value and no timestamp,
    [iteratorToHistoryList] raises a [TypeError]: no list is returned, and
    [close()] is not called. *)
Theorem iteratorToHistoryList_missing_timestamp
    (pre : list (next_outcome KeyModification)) (res : NextResult KeyModification)
    (item : KeyModification) (rest : list (next_outcome KeyModification))
    (made : list call) :
  Forall continues pre ->
  next_value res = Some item ->
  km_value item <> [] ->
  km_timestamp item = None ->
  fst (iteratorToHistoryList (mk_iterator (pre ++ Resolves res :: rest)%list made))
  = Throw TypeError
  /\ count_close (calls (snd (iteratorToHistoryList
                                (mk_iterator (pre ++ Resolves res :: rest)%list made))))
     = count_close made.
Proof.
  intros Hpre Hitem Hval Hts. unfold iteratorToHistoryList. simpl.
  destruct (drain_history_raises pre Hpre res item rest made [] Hitem Hval Hts)
    as [it' [Hit' Hc]].
  rewrite Hit'. simpl. split; [reflexivity | exact Hc].
Qed.

Lemma iteratorToHistoryList_missing_timestamp_witness :
  fst (iteratorToHistoryList
         (mk_iterator
            [Resolves (mk_next (Some (mk_modification (Buffer_from "1") false "tx1" (Some 100))) false);
             Resolves (mk_next (Some (mk_modification (Buffer_from "2") true "tx2" None)) false);
             Resolves (mk_next None true)] []))
  = Throw TypeError
  /\ count_close
       (calls (snd (iteratorToHistoryList
          (mk_iterator
             [Resolves (mk_next (Some (mk_modification (Buffer_from "1") false "tx1" (Some 100))) false);
              Resolves (mk_next (Some (mk_modification (Buffer_from "2") true "tx2" None)) false);
              Resolves (mk_next None true)] []))))
     = count_close [].
Proof.
  apply (iteratorToHistoryList_missing_timestamp
           [Resolves (mk_next (Some (mk_modification (Buffer_from "1") false "tx1" (Some 100))) false)]
           (mk_next (Some (mk_modification (Buffer_from "2") true "tx2" None)) false)
           (mk_modification (Buffer_from "2") true "tx2" None)
           [Resolves (mk_next None true)] []).
  - constructor; [|constructor].
    exists (mk_next (Some (mk_modification (Buffer_from "1") false "tx1" (Some 100))) false).
    split; reflexivity.
  - reflexivity.
  - simpl. discriminate.
  - reflexivity.
Defined.

Lemma count_close_run (made : list call) (n : nat) :
  count_close (made ++ repeat CallNext n ++ [CallClose])%list = S (count_close made).
Proof.
  rewrite !count_close_app.
  assert (H : count_close (repeat CallNext n) = 0%nat).
  { induction n as [|n IH]; [reflexivity | exact IH]. }
  rewrite H. change (count_close [CallClose]) with 1%nat. lia.
Qed.

(** [iteratorToList] and [iteratorToKVList] on a run without failure: every
    [next()] resolves, the last one with [done]; the list is returned and the
    iterator has received one more [close()], after the last [next()]. *)
Lemma drain_functions_complete (made : list call)
    (pre rest : list (next_outcome KV_entry)) (last : NextResult KV_entry) :
  Forall continues pre ->
  done last = true ->
  (exists results,
      iteratorToList (mk_iterator (pre ++ Resolves last :: rest)%list made)
      = (Return results,
         mk_iterator rest
           (made ++ repeat CallNext (S (List.length pre)) ++ [CallClose])%list))
  /\ (exists results,
         iteratorToKVList (mk_iterator (pre ++ Resolves last :: rest)%list made)
         = (Return results,
            mk_iterator rest
              (made ++ repeat CallNext (S (List.length pre)) ++ [CallClose])%list)).
Proof.
  intros Hpre Hdone. split.
  - apply (drain_completes list_body pre last rest made list_body_returns Hpre Hdone).
  - apply (drain_completes kv_body pre last rest made kv_body_returns Hpre Hdone).
Qed.

(** ** What the drain functions gather *)













Lemma kv_list_bodies (res : NextResult KV_entry) (acc : list KV) :
  exists acc',
    kv_body res acc = Return acc'
    /\ list_body res (map value_of acc) = Return (map value_of acc').
Proof.
  unfold kv_body, list_body. destruct (next_value res) as [item|].
  - destruct (0 <? _)%nat; eexists; (split; [reflexivity|]);
      rewrite ?map_app; reflexivity.
  - eexists. split; reflexivity.
Qed.

Lemma drain_kv_list (closing : option exn) (todo : list (next_outcome KV_entry)) :
  forall (made : list call) (acc : list KV),
    drain list_body closing todo made (map value_of acc)
    = (match fst (drain kv_body closing todo made acc) with
       | Return kvs => Return (map value_of kvs)
       | Throw e => Throw e
       end,
       snd (drain kv_body closing todo made acc)).
Proof.
  induction todo as [|o todo IH]; intros made acc.
  - cbn [drain list_body kv_body next_value]. destruct closing; reflexivity.
  - destruct o as [res|e]; [|reflexivity].
    cbn [drain]. destruct (kv_list_bodies res acc) as (acc' & Hk & Hl).
    rewrite Hk, Hl. destruct (done res); [destruct closing; reflexivity | apply IH].
Qed.

(** X16.  On every iterator, whatever its [next()] calls produce, the values
    of the records [iteratorToKVList] returns are the list [iteratorToList]
    returns; the two fail alike, and make the same calls on the iterator. *)
Theorem iteratorToKVList_values (it : iterator KV_entry) :
  fst (iteratorToList it)
  = match fst (iteratorToKVList it) with
    | Return kvs => Return (map value_of kvs)
    | Throw e => Throw e
    end
  /\ snd (iteratorToList it) = snd (iteratorToKVList it).
Proof.
  unfold iteratorToList, iteratorToKVList.
  change (@nil value) with (map value_of []).
  rewrite drain_kv_list. split; reflexivity.
Qed.

(** X17.  When a [next()] call rejects after results that were not [done],
    [iteratorToList] and [iteratorToKVList] reject with the same reason:
    the items gathered so far are not returned, no further result is
    fetched, and [close()] is not called. *)
Theorem drain_functions_reject (pre rest : list (next_outcome KV_entry)) (e : exn)
    (made : list call) :
  Forall continues pre ->
  iteratorToList (mk_iterator (pre ++ Rejects e :: rest)%list made)
  = (Throw e, mk_iterator rest (made ++ repeat CallNext (S (List.length pre)))%list)
  /\ iteratorToKVList (mk_iterator (pre ++ Rejects e :: rest)%list made)
     = (Throw e, mk_iterator rest (made ++ repeat CallNext (S (List.length pre)))%list)
  /\ count_close (made ++ repeat CallNext (S (List.length pre)))%list = count_close made.
Proof.
  intro Hpre. split; [|split].
  - apply (drain_rejected list_body None pre e rest made list_body_returns Hpre).
  - apply (drain_rejected kv_body None pre e rest made kv_body_returns Hpre).
  - rewrite count_close_app.
    assert (H : count_close (repeat CallNext (S (List.length pre))) = 0%nat).
    { induction (S (List.length pre)) as [|n IH]; [reflexivity | exact IH]. }
    rewrite H. lia.
Qed.

Lemma drain_functions_reject_witness :
  iteratorToList
    (mk_iterator
       ([Resolves (mk_next (Some (mk_entry "a" (Buffer_from "1"))) false)]
        ++ Rejects (Rejected "gone") :: [Resolves (mk_next None true)])%list [])
  = (Throw (Rejected "gone"),
     mk_iterator [Resolves (mk_next None true)] [CallNext; CallNext])
  /\ iteratorToKVList
       (mk_iterator
          ([Resolves (mk_next (Some (mk_entry "a" (Buffer_from "1"))) false)]
           ++ Rejects (Rejected "gone") :: [Resolves (mk_next None true)])%list [])
     = (Throw (Rejected "gone"),
        mk_iterator [Resolves (mk_next None true)] [CallNext; CallNext])
  /\ count_close [CallNext; CallNext] = count_close [].
Proof.
  apply (drain_functions_reject
           [Resolves (mk_next (Some (mk_entry "a" (Buffer_from "1"))) false)]
           [Resolves (mk_next None true)] (Rejected "gone") []).
  constructor; [|constructor].
  exists (mk_next (Some (mk_entry "a" (Buffer_from "1"))) false). split; reflexivity.
Defined.

(** ** How the drain functions end *)

Lemma drain_drained {A R : Type} (body : NextResult A -> list R -> outcome (list R))
    (closing : option exn) (todo : list (next_outcome A)) :
  forall (made : list call) (acc : list R),
    drained (fst (drain body closing todo made acc)) closing made
            (calls (snd (drain body closing todo made acc))).
Proof.
  assert (Hfail : forall (e : exn) (rest : list (next_outcome A)) (made : list call),
            drained (@Throw (list R) e) closing made
                    (calls (Iterator rest closing (made ++ [CallNext])%list))).
  { intros e rest made. exists 1%nat. split; [lia|]. left.
    split; [reflexivity | exists e; reflexivity]. }
  assert (Hend : forall (results : list R) (rest : list (next_outcome A))
                        (made : list call),
            drained (closed closing results) closing made
                    (calls (Iterator rest closing (made ++ [CallNext; CallClose])%list))).
  { intros results rest made. exists 1%nat. split; [lia|]. right.
    split; [reflexivity | exists results; reflexivity]. }
  induction todo as [|o todo IH]; intros made acc.
  - cbn [drain]. destruct (body (mk_next None true) acc); [apply Hend | apply Hfail].
  - destruct o as [res|e]; cbn [drain]; [|apply Hfail].
    destruct (body res acc) as [results|e]; [|apply Hfail].
    destruct (done res); [apply Hend|].
    destruct (IH (made ++ [CallNext])%list results) as (n & Hn & Hc).
    exists (S n). split; [lia|].
    destruct Hc as [[Hc He]|[Hc Hr]]; [left | right];
      (split; [rewrite Hc, <- List.app_assoc; reflexivity | assumption]).
Qed.

(** X18.  On every iterator, however its [next()] and [close()] calls
    resolve or reject, each drain function calls [next()] at least once and
    nothing but [next()] while its loop runs.  When the loop fails, the
    function fails and [close()] has not been called.  When the loop ends,
    [close()] is called once, as the last call, and the function returns a
    list if [close()] resolves and fails with the reason of [close()] if it
    rejects.  So a list is never returned without [close()] having been
    called. *)
Theorem drain_functions_calls (it : iterator KV_entry) (ih : iterator KeyModification) :
  drained (fst (iteratorToList it)) (closing it) (calls it)
          (calls (snd (iteratorToList it)))
  /\ drained (fst (iteratorToKVList it)) (closing it) (calls it)
             (calls (snd (iteratorToKVList it)))
  /\ drained (fst (iteratorToHistoryList ih)) (closing ih) (calls ih)
             (calls (snd (iteratorToHistoryList ih))).
Proof. split; [|split]; apply drain_drained. Qed.

(** A rejecting [close()]: the items were gathered and [close()] was called,
    yet the function fails and the list is lost. *)
Example drain_close_rejects :
  iteratorToList
    (Iterator [Resolves (mk_next (Some (mk_entry "k" (Buffer_from "1"))) false);
               Resolves (mk_next None true)]
              (Some (Rejected "busy")) [])
  = (Throw (Rejected "busy"),
     Iterator [] (Some (Rejected "busy")) [CallNext; CallNext; CallClose]).
Proof. reflexivity. Qed.

Lemma drain_history_throws (closing : option exn)
    (todo : list (next_outcome KeyModification)) :
  forall (made : list call) (acc : list KeyModificationItem) (e : exn),
    fst (drain history_body closing todo made acc) = Throw e ->
    In (Rejects e) todo
    \/ closing = Some e
    \/ (e = TypeError
        /\ exists res item,
             In (Resolves res) todo
             /\ next_value res = Some item
             /\ Buffer_toString (km_value item) <> ""
             /\ km_timestamp item = None).
Proof.
  assert (Hclose : forall (results : list KeyModificationItem) (e : exn),
            closed closing results = Throw e -> closing = Some e).
  { intros results e. unfold closed. destruct closing as [e'|]; [|discriminate].
    intro H. injection H as ->. reflexivity. }
  induction todo as [|o todo IH]; intros made acc e.
  - cbn [drain history_body next_value fst]. intro H. right. left.
    exact (Hclose _ _ H).
  - destruct o as [res|e']; cbn [drain].
    + destruct (history_body res acc) as [results|e1] eqn:Hb.
      * destruct (done res).
        { cbn [fst]. intro H. right. left. exact (Hclose _ _ H). }
        intro H. destruct (IH _ _ _ H) as [Hin|[Hc|(He & r & item & Hin & Hr)]].
        -- left. right. exact Hin.
        -- right. left. exact Hc.
        -- right. right. split; [exact He|].
           exists r, item. split; [right; exact Hin | exact Hr].
      * cbn [fst]. intro H. injection H as ->. right. right.
        unfold history_body in Hb.
        destruct (next_value res) as [item|] eqn:Hv; [|discriminate Hb].
        destruct (0 <? String.length (Buffer_toString (km_value item)))%nat eqn:Hl;
          [|discriminate Hb].
        destruct (km_timestamp item) eqn:Hts; [discriminate Hb|].
        injection Hb as <-. split; [reflexivity|].
        exists res, item. split; [left; reflexivity|].
        split; [exact Hv|]. split; [|exact Hts].
        apply length_pos_iff. exact Hl.
    + cbn [fst]. intro H. injection H as ->. left. left. reflexivity.
Qed.

(** X20.  [iteratorToHistoryList] fails in three cases only: a [next()]
    call rejects, and the failure is its reason; [close()] rejects, and the
    failure is its reason; or an item whose value text is not empty has no
    timestamp, and the failure is a [TypeError]. *)
Theorem iteratorToHistoryList_failures (it : iterator KeyModification) (e : exn) :
  fst (iteratorToHistoryList it) = Throw e ->
  In (Rejects e) (script it)
  \/ closing it = Some e
  \/ (e = TypeError
      /\ exists res item,
           In (Resolves res) (script it)
           /\ next_value res = Some item
           /\ Buffer_toString (km_value item) <> ""
           /\ km_timestamp item = None).
Proof. apply drain_history_throws. Qed.

Lemma iteratorToHistoryList_failures_witness :
  In (Rejects (Rejected "busy"))
     (script (Iterator
                [Resolves (mk_next (Some (mk_modification (Buffer_from "1") false "tx" (Some 7)))
                                   true)]
                (Some (Rejected "busy")) []))
  \/ closing (Iterator
                [Resolves (mk_next (Some (mk_modification (Buffer_from "1") false "tx" (Some 7)))
                                   true)]
                (Some (Rejected "busy")) [])
     = Some (Rejected "busy")
  \/ (Rejected "busy" = TypeError
      /\ exists res item,
           In (Resolves res)
              (script (Iterator
                         [Resolves (mk_next (Some (mk_modification (Buffer_from "1") false "tx" (Some 7)))
                                            true)]
                         (Some (Rejected "busy")) []))
           /\ next_value res = Some item
           /\ Buffer_toString (km_value item) <> ""
           /\ km_timestamp item = None).
Proof.
  apply (iteratorToHistoryList_failures
           (Iterator
              [Resolves (mk_next (Some (mk_modification (Buffer_from "1") false "tx" (Some 7)))
                                 true)]
              (Some (Rejected "busy")) [])
           (Rejected "busy")).
  reflexivity.
Defined.




(** ** The testable properties of the specification, evaluated *)

Example deserialize_object :
  bufferToObject [] (Arg (Buffer_from ("{" +++ JSON_quote "a" +++ ":1}")))
  = (Return (VObj [("a", VNum (NInt 1))]), []).
Proof. vm_compute. reflexivity. Qed.

Example deserialize_not_json :
  bufferToObject [] (Arg (Buffer_from "not json"))
  = (Return (VStr "not json"),
     [mk_log "error" "Error parsing buffer to JSON" "not json"]).
Proof. vm_compute. reflexivity. Qed.

Example normalize_date :
  normalizePayload (VDate (Some 1609459200000)) = VNum (NInt 1609459200000).
Proof. reflexivity. Qed.

Example serialize_date_and_string :
  serialize (VDate (Some 1609459200000)) = Return (VBuffer (Buffer_from "1609459200000"))
  /\ serialize (VStr "plain") = Return (VBuffer (Buffer_from "plain"))
  /\ serialize (VArr [VDate (Some 5); VStr "a"])
     = Return (VBuffer (Buffer_from ("[5," +++ JSON_quote "a" +++ "]"))).
Proof. repeat split; vm_compute; reflexivity. Qed.

Example drain_three_items :
  let item := fun text => Resolves (mk_next (Some (mk_entry "k" (Buffer_from text))) false) in
  iteratorToList
    (mk_iterator [item "1"; item "x"; item "[3]"; Resolves (mk_next None true)] [])
  = (Return [VNum (NInt 1); VStr "x"; VArr [VNum (NInt 3)]],
     mk_iterator [] [CallNext; CallNext; CallNext; CallNext; CallClose]).
Proof. vm_compute. reflexivity. Qed.

Example drain_history_item :
  iteratorToHistoryList
    (mk_iterator
       [Resolves (mk_next (Some (mk_modification (Buffer_from (JSON_quote "v"))
                                                 true "tx1" (Some 100))) false);
        Resolves (mk_next None true)] [])
  = (Return [mk_item true (VStr "v") 100 "tx1"],
     mk_iterator [] [CallNext; CallNext; CallClose]).
Proof. vm_compute. reflexivity. Qed.
